(** * Verification of the package-template initialiser [.template/init.py]

    The script substitutes placeholder tokens of the shape [${name}] in file
    contents and in file and directory names.  This development embeds the
    script's functions over an explicit model of the working directory and
    proves properties of them.

    Text is modelled by [string]: a Python [str] is represented by its UTF-8
    encoding, file contents are byte strings, and [read_text] checks that the
    bytes are well-formed UTF-8.  Searching well-formed UTF-8 for a
    well-formed key finds the same occurrences byte by byte as code point by
    code point.  The write of step 1 is modelled for replacement values that
    are encodable text, and the statements about what step 1 writes say so
    ([encodable]).  The operating system is POSIX ([os.linesep] is a line feed, the path
    separator is a slash); symbolic links, permissions, limits on the length
    of names and devices are not modelled. *)

From Stdlib Require Import String Ascii List Bool Arith Lia.
From Stdlib Require Import DecimalString DecimalNat.
Import ListNotations.
Open Scope string_scope.
Open Scope list_scope.

(** ** Python string operations *)

Module PyStr.

(** [s.startswith(k)]. *)
Fixpoint starts_with (k s : string) : bool :=
  match k, s with
  | EmptyString, _ => true
  | String _ _, EmptyString => false
  | String a k', String b s' => Ascii.eqb a b && starts_with k' s'
  end.

(** [k in s]: [k] occurs somewhere in [s]. *)
Fixpoint occurs (k s : string) : bool :=
  starts_with k s ||
  match s with
  | EmptyString => false
  | String _ s' => occurs k s'
  end.

(** [c in s] for a single character. *)
Fixpoint has_char (c : ascii) (s : string) : bool :=
  match s with
  | EmptyString => false
  | String b s' => Ascii.eqb c b || has_char c s'
  end.

(** Scan of [str.replace] for a non-empty [old]: left to right, [skip] counts
    the characters of the occurrence just matched that are still to be
    dropped, so occurrences replaced never overlap and the inserted [new] is
    not scanned. *)
Fixpoint replace_from (old new : string) (skip : nat) (s : string) : string :=
  match s with
  | EmptyString => EmptyString
  | String c s' =>
      match skip with
      | S k => replace_from old new k s'
      | O =>
          if starts_with old s
          then new ++ replace_from old new (String.length old - 1) s'
          else String c (replace_from old new 0 s')
      end
  end.

(** A byte 80 to BF: in encoded text it continues a character and never
    begins one. *)
Definition continuation_byte (c : ascii) : bool :=
  Nat.leb 128 (nat_of_ascii c) && Nat.leb (nat_of_ascii c) 191.

(** [str.replace] with an empty [old] inserts [new] before every character
    and at the end.  A character begins at every byte that is not a
    continuation byte, which is exact on encoded text; the keys of the script
    are never empty. *)
Fixpoint intersperse (new s : string) : string :=
  match s with
  | EmptyString => new
  | String c s' =>
      if continuation_byte c then String c (intersperse new s')
      else new ++ String c (intersperse new s')
  end.

(** [s.replace(old, new)]. *)
Definition replace (s old new : string) : string :=
  match old with
  | EmptyString => intersperse new s
  | String _ _ => replace_from old new 0 s
  end.

(** [s.split(sep)] for a one-character separator. *)
Fixpoint split (sep : ascii) (s : string) : list string :=
  match s with
  | EmptyString => [EmptyString]
  | String c s' =>
      if Ascii.eqb c sep then EmptyString :: split sep s'
      else match split sep s' with
           | [] => [String c EmptyString]
           | h :: t => String c h :: t
           end
  end.

(** Character-wise image of a string. *)
Fixpoint map_chars (f : ascii -> ascii) (s : string) : string :=
  match s with
  | EmptyString => EmptyString
  | String c s' => String (f c) (map_chars f s')
  end.

End PyStr.

Import PyStr.

(** ** The replacement mapping *)

(** A Python [dict[str, str]] iterated in insertion order. *)
Definition mapping := list (string * string).

(** The loop [for key, value in replacements.items(): text = text.replace(key, value)]
    of [replace_in_file], and the same loop over a name in
    [rename_files_and_dirs]. *)
Definition apply_replacements (replacements : mapping) (text : string) : string :=
  fold_left (fun t kv => replace t (fst kv) (snd kv)) replacements text.

Definition keys (replacements : mapping) : list string := map fst replacements.

(** ** Command line and derived values *)

Module Cli.

(** The dataclass [Args]. *)
Record Args := {
  name : string;
  author : string;
  email : string;
  description : string;
  github : string
}.

(** What the process environment answers.  [git_user_name] and
    [git_user_email] are the stripped standard output of
    [git config --get user.name] and [... user.email], [None] when the
    command fails or git is absent; [os_user] is [getpass.getuser()]. *)
Record environment := {
  git_user_name : option string;
  git_user_email : option string;
  os_user : string
}.

(** The flags given on the command line, [None] for a flag left out. *)
Record argv := {
  flag_name : option string;
  flag_author : option string;
  flag_email : option string;
  flag_description : option string;
  flag_github : option string
}.

(** [get_git_config(key, default)]: the stripped output [or default]. *)
Definition get_git_config (answer : option string) (default : string) : string :=
  match answer with
  | Some EmptyString => default
  | Some s => s
  | None => default
  end.

Definition flag_or (flag : option string) (default : string) : string :=
  match flag with
  | Some v => v
  | None => default
  end.

(** [parse_args()]; [None] is argparse's usage error for a missing
    [--name]. *)
Definition parse_args (env : environment) (a : argv) : option Args :=
  match flag_name a with
  | None => None
  | Some n =>
      let args_author :=
        flag_or (flag_author a) (get_git_config (git_user_name env) "Your Name") in
      let args_email :=
        flag_or (flag_email a)
                (get_git_config (git_user_email env) "your.email@example.com") in
      let args_description := flag_or (flag_description a) "A Python package" in
      let args_github :=
        match flag_github a with
        | Some g => g
        | None =>
            if has_char "@" args_email
            then hd EmptyString (split "@" args_email)
            else os_user env
        end in
      Some {| name := n; author := args_author; email := args_email;
              description := args_description; github := args_github |}
  end.

End Cli.

(** [str(n)] for a natural number. *)
Definition str_of_nat (n : nat) : string :=
  NilEmpty.string_of_uint (Nat.to_uint n).

(** The dictionary [replacements] built in [main]; [year] is
    [datetime.now().year]. *)
Definition replacements_of (args : Cli.Args) (year : nat) : mapping :=
  let import_name := replace (Cli.name args) "-" "_" in
  let package_title := import_name in
  let current_year := str_of_nat year in
  [ ("${package_name}", Cli.name args);
    ("${import_name}", import_name);
    ("${package_title}", package_title);
    ("${author}", Cli.author args);
    ("${email}", Cli.email args);
    ("${description}", Cli.description args);
    ("${github_username}", Cli.github args);
    ("${year}", current_year) ].

(** The eight placeholder tokens. *)
Definition tokens : list string :=
  [ "${package_name}"; "${import_name}"; "${package_title}"; "${author}";
    "${email}"; "${description}"; "${github_username}"; "${year}" ].

(** ** The working directory *)

#[local] Unset Elimination Schemes.
Inductive node : Type :=
| File (data : string)
| Dir (entries : list (string * node)).
#[local] Set Elimination Schemes.

Definition entries := list (string * node).

(** A path relative to the working directory, one component per element. *)
Definition path := list string.

Definition is_dir (n : node) : bool :=
  match n with
  | Dir _ => true
  | File _ => false
  end.

Module Entries.

Fixpoint get (x : string) (es : entries) : option node :=
  match es with
  | [] => None
  | (y, n) :: es' => if String.eqb x y then Some n else get x es'
  end.

(** Replace the node named [x], or add the entry at the end. *)
Fixpoint set (x : string) (n : node) (es : entries) : entries :=
  match es with
  | [] => [(x, n)]
  | (y, m) :: es' =>
      if String.eqb x y then (y, n) :: es' else (y, m) :: set x n es'
  end.

Fixpoint remove (x : string) (es : entries) : entries :=
  match es with
  | [] => []
  | (y, m) :: es' =>
      if String.eqb x y then remove x es' else (y, m) :: remove x es'
  end.

(** The entry named [a] takes the name [b] and keeps its place. *)
Definition rename (a b : string) (es : entries) : entries :=
  map (fun e => (if String.eqb (fst e) a then b else fst e, snd e)) es.

Definition names (es : entries) : list string := map fst es.

End Entries.

Fixpoint lookup (t : node) (p : path) : option node :=
  match p with
  | [] => Some t
  | x :: p' =>
      match t with
      | Dir es =>
          match Entries.get x es with
          | Some c => lookup c p'
          | None => None
          end
      | File _ => None
      end
  end.

(** [os.path.exists]. *)
Definition path_exists (t : node) (p : path) : bool :=
  match lookup t p with
  | Some _ => true
  | None => false
  end.

(** [Path.is_file]. *)
Definition is_file (t : node) (p : path) : bool :=
  match lookup t p with
  | Some (File _) => true
  | _ => false
  end.

(** Number of directory levels below and including [t]. *)
Fixpoint height (t : node) : nat :=
  match t with
  | File _ => 0
  | Dir es => S (fold_right (fun e h => Nat.max (height (snd e)) h) 0 es)
  end.

Definition mem (x : string) (l : list string) : bool :=
  existsb (String.eqb x) l.

Fixpoint distinct (l : list string) : bool :=
  match l with
  | [] => true
  | x :: l' => negb (mem x l') && distinct l'
  end.

(** Every directory lists each name once. *)
Fixpoint well_formed (t : node) : bool :=
  match t with
  | File _ => true
  | Dir es =>
      distinct (Entries.names es) && forallb (fun e => well_formed (snd e)) es
  end.

(** ** Outcomes of the modelled effects *)

Inductive exn : Type :=
| FileNotFoundError
| FileExistsError
| NotADirectoryError
| IsADirectoryError
| ShutilError        (* shutil.Error: Destination path already exists *)
| ValueError
| SystemExit
| KeyboardInterrupt.

Inductive outcome (A : Type) : Type :=
| Ok (a : A)
| Raise (e : exn)
| Unmodelled       (* the step leaves the modelled part of the file system *)
| OutOfFuel.

Arguments Ok {A} a.
Arguments Raise {A} e.
Arguments Unmodelled {A}.
Arguments OutOfFuel {A}.

Definition bind {A B : Type} (m : outcome A) (f : A -> outcome B) : outcome B :=
  match m with
  | Ok a => f a
  | Raise e => Raise e
  | Unmodelled => Unmodelled
  | OutOfFuel => OutOfFuel
  end.

Notation "x <- m ;; k" := (bind m (fun x => k))
  (at level 61, m at next level, right associativity).

(** A [for] loop whose body may raise. *)
Fixpoint for_each {A S : Type} (body : A -> S -> outcome S) (l : list A) (s : S)
  : outcome S :=
  match l with
  | [] => Ok s
  | a :: l' => s' <- body a s ;; for_each body l' s'
  end.

(** Lines printed by the script. *)
Inductive event : Type :=
| Banner (step : nat)
| Updated (file : path)
| SkippingBinary (file : path)
| ErrorProcessing (file : path)
| Renaming (root : path) (old new : string)
| RenamingDirectory (root : path) (old new : string).

Record state := { tree : node; out : list event }.

Definition print (e : event) (st : state) : state :=
  {| tree := tree st; out := out st ++ [e] |}.

Definition on_tree (f : node -> outcome node) (st : state) : outcome state :=
  t <- f (tree st) ;; Ok {| tree := t; out := out st |}.

(** ** Reading and writing text *)

Module Utf8.

Definition between (lo hi : nat) (c : ascii) : bool :=
  Nat.leb lo (nat_of_ascii c) && Nat.leb (nat_of_ascii c) hi.

(** Ranges allowed for the bytes that follow a lead byte; [None] when the
    byte cannot start a character.  Overlong forms, surrogates and code
    points above U+10FFFF are excluded, as Python's strict decoder does. *)
Definition continuation (lead : ascii) : option (list (nat * nat)) :=
  if between 0 127 lead then Some []
  else if between 194 223 lead then Some [(128, 191)]
  else if between 224 224 lead then Some [(160, 191); (128, 191)]
  else if between 225 236 lead then Some [(128, 191); (128, 191)]
  else if between 237 237 lead then Some [(128, 159); (128, 191)]
  else if between 238 239 lead then Some [(128, 191); (128, 191)]
  else if between 240 240 lead then Some [(144, 191); (128, 191); (128, 191)]
  else if between 241 243 lead then Some [(128, 191); (128, 191); (128, 191)]
  else if between 244 244 lead then Some [(128, 143); (128, 191); (128, 191)]
  else None.

Fixpoint valid_from (pending : list (nat * nat)) (s : string) : bool :=
  match s with
  | EmptyString =>
      match pending with
      | [] => true
      | _ :: _ => false
      end
  | String c s' =>
      match pending with
      | (lo, hi) :: rest => between lo hi c && valid_from rest s'
      | [] =>
          match continuation c with
          | Some rest => valid_from rest s'
          | None => false
          end
      end
  end.

(** The bytes decode as UTF-8. *)
Definition valid (data : string) : bool := valid_from [] data.

End Utf8.

Definition CR : ascii := ascii_of_nat 13.
Definition LF : ascii := ascii_of_nat 10.

(** Universal newlines of text mode: CR LF and a lone CR are read as LF. *)
Fixpoint universal_newlines (s : string) : string :=
  match s with
  | EmptyString => EmptyString
  | String c s' =>
      if Ascii.eqb c CR then
        String LF
          match s' with
          | String c' s'' =>
              if Ascii.eqb c' LF then universal_newlines s''
              else universal_newlines s'
          | EmptyString => EmptyString
          end
      else String c (universal_newlines s')
  end.

(** [path.read_text(encoding="utf-8")] on the bytes of the file; [None] is
    [UnicodeDecodeError]. *)
Definition read_text (data : string) : option string :=
  if Utf8.valid data then Some (universal_newlines data) else None.

(** [path.write_text(text, encoding="utf-8")] on an existing file. *)
Fixpoint write_text (p : path) (text : string) (t : node) : node :=
  match p, t with
  | [], File _ => File text
  | x :: p', Dir es =>
      match Entries.get x es with
      | Some c => Dir (Entries.set x (write_text p' text c) es)
      | None => t
      end
  | _, _ => t
  end.

(** ** Step 1: file contents *)

(** [replace_in_file(path, replacements)].  The script calls it with the
    resolved path [cwd ++ p]; [p] is that path below the working directory.
    Every exception is caught, so the function returns in all cases.

    The write is modelled for text that can be encoded.  A value given on the
    command line with bytes that are not UTF-8 reaches Python as lone
    surrogates; once such a value is substituted, [write_text] has truncated
    the file when the encoding fails, and the handler prints the error line.
    Statements about the contents and the lines of step 1 therefore take a
    mapping that is [encodable]. *)
Definition replace_in_file (cwd : path) (p : path) (replacements : mapping)
  (st : state) : state :=
  match lookup (tree st) p with
  | Some (File data) =>
      match read_text data with
      | Some text =>
          let text' := apply_replacements replacements text in
          {| tree := write_text p text' (tree st);
             out := out st ++ [Updated (cwd ++ p)] |}
      | None => print (SkippingBinary (cwd ++ p)) st
      end
  | _ => print (ErrorProcessing (cwd ++ p)) st
  end.

(** [Path(".").rglob("*")]: every path below the working directory.  The
    entries of a directory are all listed before any of its sub-directories is
    entered; the sub-directories then follow in the order of their entries,
    each with everything below it. *)
Fixpoint rglob (t : node) : list path :=
  match t with
  | File _ => []
  | Dir es =>
      map (fun e => [fst e]) es
      ++ flat_map (fun e => match e with
                            | (x, c) => map (cons x) (rglob c)
                            end) es
  end.

Definition path_eqb (p q : path) : bool :=
  if list_eq_dec string_dec p q then true else false.

Definition has_part (x : string) (p : path) : bool :=
  existsb (String.eqb x) p.

(** The condition of the [if] in step 1 of [main], on the resolved path
    [cwd ++ p]. *)
Definition selected (cwd script_path : path) (t : node) (p : path) : bool :=
  is_file t p
  && negb (has_part ".git" (cwd ++ p))
  && negb (has_part ".github" (cwd ++ p))
  && negb (path_eqb (cwd ++ p) script_path).

(** One turn of the loop of step 1. *)
Definition rewrite_one (cwd script_path : path) (replacements : mapping)
  (s : state) (p : path) : state :=
  if selected cwd script_path (tree s) p
  then replace_in_file cwd p replacements s
  else s.

(** Step 1 of [main].  The paths are those of the tree at the start of the
    step: the step changes file contents only. *)
Definition rewrite_contents (cwd script_path : path) (replacements : mapping)
  (st : state) : state :=
  fold_left (rewrite_one cwd script_path replacements)
    (rglob (tree st)) (print (Banner 1) st).

(** ** Step 2: names *)

(** Where [os.path.join(root, new_name)] points. *)
Inductive target : Type :=
| Here               (* the directory [root] itself: the name is empty or "." *)
| Child (b : string) (* an entry of [root] *)
| Elsewhere.         (* the name has a slash or is "..": not modelled *)

Definition classify (new_name : string) : target :=
  if has_char "/" new_name then Elsewhere
  else if String.eqb new_name ".." then Elsewhere
  else if String.eqb new_name "" || String.eqb new_name "." then Here
  else Child new_name.

(** Apply [f] to the entries of the directory at [p]. *)
Fixpoint at_dir (p : path) (f : entries -> outcome entries) (t : node)
  : outcome node :=
  match t with
  | File _ => Raise NotADirectoryError
  | Dir es =>
      match p with
      | [] => es' <- f es ;; Ok (Dir es')
      | x :: p' =>
          match Entries.get x es with
          | Some c => c' <- at_dir p' f c ;; Ok (Dir (Entries.set x c' es))
          | None => Raise FileNotFoundError
          end
      end
  end.

(** [os.makedirs(p, exist_ok=True)]. *)
Fixpoint makedirs (p : path) (t : node) : outcome node :=
  match p with
  | [] =>
      match t with
      | Dir _ => Ok t
      | File _ => Raise FileExistsError
      end
  | x :: p' =>
      match t with
      | File _ => Raise NotADirectoryError
      | Dir es =>
          match Entries.get x es with
          | Some c => c' <- makedirs p' c ;; Ok (Dir (Entries.set x c' es))
          | None => c' <- makedirs p' (Dir []) ;; Ok (Dir (es ++ [(x, c')]))
          end
      end
  end.

(** [shutil.move(join(root, a), join(root, new_name))] seen from the entries
    of [root].  An existing directory as destination receives the source
    under its old name; an existing file is replaced by [os.rename]. *)
Definition move_entry (a : string) (dst : target) (es : entries)
  : outcome entries :=
  let source := Entries.get a es in
  match dst with
  | Elsewhere => Unmodelled
  | Here =>
      (* the destination is the directory of the source *)
      match source with
      | Some _ => Raise ShutilError
      | None => Raise FileNotFoundError
      end
  | Child b =>
      if String.eqb a b then
        match source with
        | Some _ => Ok es
        | None => Raise FileNotFoundError
        end
      else
        match Entries.get b es with
        | Some (Dir sub) =>
            match Entries.get a sub, source with
            | Some _, _ => Raise ShutilError
            | None, Some n =>
                Ok (Entries.set b (Dir (sub ++ [(a, n)])) (Entries.remove a es))
            | None, None => Raise FileNotFoundError
            end
        | Some (File _) =>
            match source with
            | Some (File _) => Ok (Entries.rename a b (Entries.remove b es))
            | Some (Dir _) => Raise FileExistsError
            | None => Raise FileNotFoundError
            end
        | None =>
            match source with
            | Some _ => Ok (Entries.rename a b es)
            | None => Raise FileNotFoundError
            end
        end
  end.

Definition shutil_move (root : path) (a : string) (dst : target) (t : node)
  : outcome node :=
  at_dir root (move_entry a dst) t.

(** [os.path.exists(os.path.join(root, new_name))]. *)
Definition target_exists (root : path) (dst : target) (t : node) : outcome bool :=
  match dst with
  | Here => Ok (path_exists t root)
  | Child b => Ok (path_exists t (root ++ [b]))
  | Elsewhere => Unmodelled
  end.

(** The marker tested by [if "${" in file]. *)
Definition marker : string := "${".

(** Body of [for file in files]. *)
Definition rename_file (replacements : mapping) (root : path) (file : string)
  (st : state) : outcome state :=
  if occurs marker file then
    let new_name := apply_replacements replacements file in
    if String.eqb file new_name then Ok st
    else
      let st1 := print (Renaming root file new_name) st in
      match classify new_name with
      | Elsewhere => Unmodelled
      | dst =>
          st2 <- on_tree (makedirs root) st1 ;;
          on_tree (shutil_move root file dst) st2
      end
  else Ok st.

(** Body of [for dir_name in dirs]. *)
Definition rename_dir (replacements : mapping) (root : path) (dir_name : string)
  (st : state) : outcome state :=
  if occurs marker dir_name then
    let new_name := apply_replacements replacements dir_name in
    if String.eqb dir_name new_name then Ok st
    else
      let st1 := print (RenamingDirectory root dir_name new_name) st in
      let dst := classify new_name in
      present <- target_exists root dst (tree st1) ;;
      if present then Ok st1
      else
        st2 <- on_tree (makedirs root) st1 ;;
        on_tree (shutil_move root dir_name dst) st2
  else Ok st.

(** [os.scandir(top)] as [os.walk] uses it: the names of the directories and
    of the other entries; [None] when [top] is not a directory. *)
Definition scandir (t : node) (top : path) : option (list string * list string) :=
  match lookup t top with
  | Some (Dir es) =>
      Some (Entries.names (filter (fun e => is_dir (snd e)) es),
            Entries.names (filter (fun e => negb (is_dir (snd e))) es))
  | _ => None
  end.

(** The loop [for root, dirs, files in os.walk(directory, topdown=False)]
    with its body.  [os.walk] lists [top], walks each listed directory,
    and only then yields [top]; a directory that cannot be listed is passed
    over.  [fuel] bounds the depth of the recursion. *)
Fixpoint walk (fuel : nat) (replacements : mapping) (top : path) (st : state)
  : outcome state :=
  match fuel with
  | O => OutOfFuel
  | S fuel' =>
      match scandir (tree st) top with
      | None => Ok st
      | Some (dirs, files) =>
          st1 <- for_each (fun d => walk fuel' replacements (top ++ [d])) dirs st ;;
          st2 <- for_each (rename_file replacements top) files st1 ;;
          for_each (rename_dir replacements top) dirs st2
      end
  end.

(** [rename_files_and_dirs(directory, replacements)] with
    [directory = Path(".").resolve()]. *)
Definition rename_files_and_dirs (fuel : nat) (replacements : mapping)
  (st : state) : outcome state :=
  walk fuel replacements [] st.

(** ** Step 3 and the whole run *)

(** [p] below [base], when [base] is a prefix of it. *)
Fixpoint strip_prefix (base p : path) : option path :=
  match base, p with
  | [], _ => Some p
  | b :: base', x :: p' =>
      if String.eqb b x then strip_prefix base' p' else None
  | _ :: _, [] => None
  end.

(** [os.remove(join(root, a))] seen from the entries of [root]. *)
Definition remove_entry (a : string) (es : entries) : outcome entries :=
  match Entries.get a es with
  | Some (File _) => Ok (Entries.remove a es)
  | Some (Dir _) => Raise IsADirectoryError
  | None => Raise FileNotFoundError
  end.

(** Step 3 of [main]: [if script_path.exists(): os.remove(script_path)].  A
    script outside the working directory is the file being run: it exists, the
    banner is printed, and its removal leaves the modelled tree as it is. *)
Definition remove_script (cwd script_path : path) (st : state) : outcome state :=
  match strip_prefix cwd script_path with
  | Some rel =>
      if path_exists (tree st) rel then
        match rev rel with
        | a :: rev_root =>
            on_tree (at_dir (rev rev_root) (remove_entry a)) (print (Banner 3) st)
        | [] => Raise IsADirectoryError
        end
      else Ok st
  | None => Ok (print (Banner 3) st)
  end.

(** Steps 1 to 3 of [main] for a given mapping.  Step 4 runs git, whose
    effect on the directory is not part of this model. *)
Definition run_steps (fuel : nat) (cwd script_path : path)
  (replacements : mapping) (st : state) : outcome state :=
  let st1 := rewrite_contents cwd script_path replacements st in
  st2 <- rename_files_and_dirs fuel replacements (print (Banner 2) st1) ;;
  remove_script cwd script_path st2.

(** [main()] up to step 3.  [confirmed] is whether the user pressed Enter at
    the prompt of [confirm_replacements]. *)
Definition main (env : Cli.environment) (a : Cli.argv) (year : nat)
  (confirmed : bool) (fuel : nat) (cwd script_path : path) (st : state)
  : outcome state :=
  match Cli.parse_args env a with
  | None => Raise SystemExit
  | Some args =>
      if confirmed
      then run_steps fuel cwd script_path (replacements_of args year) st
      else Raise KeyboardInterrupt
  end.

(** ** The ignore-pattern matcher *)

Section Ignore.

(** [fnmatch.fnmatch(name, pattern)] of the standard library. *)
Variable fnmatch : string -> string -> bool.
(** [PROJECT_ROOT] and [Path.cwd()], both absolute. *)
Variable PROJECT_ROOT : path.
Variable cwd : path.
(** [Path.is_dir] on a relative path. *)
Variable rel_is_dir : path -> bool.

(** A [pathlib] path: whether it is absolute, and its parts below the root. *)
Record pure_path := { absolute : bool; parts : list string }.

(** [p.relative_to(other)]; [None] is [ValueError]. *)
Definition relative_to (p other : pure_path) : option pure_path :=
  if Bool.eqb (absolute p) (absolute other) then
    match strip_prefix (parts other) (parts p) with
    | Some rest => Some {| absolute := false; parts := rest |}
    | None => None
    end
  else None.

(** [str(p)] for a relative path. *)
Definition str_of_path (p : pure_path) : string :=
  match parts p with
  | [] => "."
  | x :: rest => fold_left (fun s y => (s ++ "/" ++ y)%string) rest x
  end.

Fixpoint ends_with_slash (s : string) : bool :=
  match s with
  | EmptyString => false
  | String c EmptyString => Ascii.eqb c "/"
  | String _ s' => ends_with_slash s'
  end.

(** [is_ignored(path, gitignore_patterns)]; [resolved] is [path.resolve()]. *)
Definition is_ignored (resolved : path) (gitignore_patterns : list string)
  : outcome bool :=
  match relative_to {| absolute := true; parts := resolved |}
                    {| absolute := true; parts := PROJECT_ROOT |} with
  | None => Raise ValueError
  | Some rel =>
      if has_part ".git" (parts rel) || has_part ".github" (parts rel)
      then Ok true
      else
        match relative_to rel {| absolute := true; parts := cwd |} with
        | None => Raise ValueError
        | Some r =>
            let path_str := str_of_path r in
            Ok (existsb
                  (fun pattern =>
                     if ends_with_slash pattern
                     then rel_is_dir (parts rel)
                          && fnmatch (path_str ++ "/")%string (pattern ++ "*")%string
                     else fnmatch path_str pattern)
                  gitignore_patterns)
        end
  end.

End Ignore.

(** ** Notions used to state the properties *)

(** The name an entry receives in step 2. *)
Definition new_name (replacements : mapping) (n : string) : string :=
  if occurs marker n then apply_replacements replacements n else n.

(** The tree with every entry under its new name. *)
Fixpoint rename_tree (replacements : mapping) (t : node) : node :=
  match t with
  | File data => File data
  | Dir es =>
      Dir (map (fun e => match e with
                         | (x, c) => (new_name replacements x,
                                      rename_tree replacements c)
                         end) es)
  end.

(** The tree with the node at [p] replaced by [n]. *)
Fixpoint update (t : node) (p : path) (n : node) : node :=
  match p with
  | [] => n
  | x :: p' =>
      match t with
      | Dir es =>
          match Entries.get x es with
          | Some c => Dir (Entries.set x (update c p' n) es)
          | None => t
          end
      | File _ => t
      end
  end.

(** A name that [os.path.join] keeps inside the parent directory. *)
Definition component (n : string) : bool :=
  match classify n with
  | Child _ => true
  | _ => false
  end.

(** The names [ns] of one directory can be renamed without collision: the
    new names are pairwise distinct, and a name that changes becomes a
    single path component that no entry of the directory carries. *)
Definition safe_names (replacements : mapping) (ns : list string) : bool :=
  distinct (map (new_name replacements) ns)
  && forallb
       (fun n =>
          String.eqb n (new_name replacements n)
          || (component (new_name replacements n)
              && negb (mem (new_name replacements n) ns)))
       ns.

Fixpoint rename_safe (replacements : mapping) (t : node) : bool :=
  match t with
  | File _ => true
  | Dir es =>
      safe_names replacements (Entries.names es)
      && forallb (fun e => rename_safe replacements (snd e)) es
  end.

(** [P] holds of every entry name of the tree. *)
Fixpoint all_names (P : string -> bool) (t : node) : bool :=
  match t with
  | File _ => true
  | Dir es => forallb (fun e => P (fst e) && all_names P (snd e)) es
  end.

(** [Q] holds of every file of the tree, given with its path; [here] is the
    path of [t]. *)
Fixpoint all_files (Q : path -> string -> bool) (here : path) (t : node) : bool :=
  match t with
  | File data => Q here data
  | Dir es => forallb (fun e => all_files Q (here ++ [fst e]) (snd e)) es
  end.

(** Every occurrence of the marker in [s] begins one of the keys [ks]. *)
Fixpoint guarded (ks : list string) (s : string) : bool :=
  (negb (starts_with marker s) || existsb (fun k => starts_with k s) ks)
  && match s with
     | EmptyString => true
     | String _ s' => guarded ks s'
     end.

(** A key of the shape of the tokens: the marker, then no further dollar. *)
Definition token_shaped (k : string) : bool :=
  match k with
  | String a (String b rest) =>
      Ascii.eqb a "$" && Ascii.eqb b "{" && negb (has_char "$" rest)
  | _ => false
  end.

(** A value that is not empty, holds no dollar and does not begin with an
    opening brace. *)
Definition plain_value (v : string) : bool :=
  match v with
  | EmptyString => false
  | String c _ => negb (Ascii.eqb c "{") && negb (has_char "$" v)
  end.

(** No token occurs in [s]. *)
Definition token_free (s : string) : bool :=
  forallb (fun k => negb (occurs k s)) tokens.

(** The part of the step 1 condition that does not depend on the tree. *)
Definition eligible (cwd script_path : path) (p : path) : bool :=
  negb (has_part ".git" (cwd ++ p))
  && negb (has_part ".github" (cwd ++ p))
  && negb (path_eqb (cwd ++ p) script_path).

(** The bytes [replace_in_file] leaves in a file that held [data]. *)
Definition rewritten (replacements : mapping) (data : string) : string :=
  match read_text data with
  | Some text => apply_replacements replacements text
  | None => data
  end.

(** The pieces of [s] between the occurrences of [old] that one scan from the
    left finds, none overlapping the one before ([s.split(old)] for a
    non-empty [old]); [skip] is as in [PyStr.replace_from].  The pieces depend
    on the text and on [old] only. *)
Fixpoint pieces_from (old : string) (skip : nat) (s : string) : list string :=
  match s with
  | EmptyString => [EmptyString]
  | String c s' =>
      match skip with
      | S k => pieces_from old k s'
      | O =>
          if starts_with old s
          then EmptyString :: pieces_from old (String.length old - 1) s'
          else match pieces_from old 0 s' with
               | [] => [String c EmptyString]
               | h :: t => String c h :: t
               end
      end
  end.

Definition pieces (old s : string) : list string := pieces_from old 0 s.

(** [sep.join(l)]. *)
Fixpoint join (sep : string) (l : list string) : string :=
  match l with
  | [] => EmptyString
  | [h] => h
  | h :: t => (h ++ sep ++ join sep t)%string
  end.

(** The dictionary value stored under [key]. *)
Fixpoint value_of (key : string) (m : mapping) : option string :=
  match m with
  | [] => None
  | (k, v) :: m' => if String.eqb key k then Some v else value_of key m'
  end.

Definition hyphen_to_underscore (c : ascii) : ascii :=
  if Ascii.eqb c "-" then "_"%char else c.

(** The tool's own file is a file of the tree whose path holds no marker, or
    lies outside the working directory. *)
Definition script_in_place (cwd script_path : path) (t : node) : bool :=
  match strip_prefix cwd script_path with
  | Some rel => is_file t rel && forallb (fun x => negb (occurs marker x)) rel
  | None => true
  end.

(** Entries of a directory in the course of step 2: those named in [done]
    carry their new name. *)
Definition renamed (replacements : mapping) (done : list string) (es : entries)
  : entries :=
  map (fun e => (if mem (fst e) done then new_name replacements (fst e)
                 else fst e, snd e)) es.

(** The line the first loop of step 2 prints for the entry [x] of [root]. *)
Definition file_event (replacements : mapping) (root : path) (x : string)
  : list event :=
  if String.eqb x (new_name replacements x) then []
  else [Renaming root x (new_name replacements x)].

(** The line the second loop prints for it. *)
Definition dir_event (replacements : mapping) (root : path) (x : string)
  : list event :=
  if String.eqb x (new_name replacements x) then []
  else [RenamingDirectory root x (new_name replacements x)].

(** The lines step 2 prints for the tree [t] found at [root], in order:
    those of the sub-directories, then those of the files of [t], then
    those of its directories. *)
Fixpoint rename_log (replacements : mapping) (root : path) (t : node)
  : list event :=
  match t with
  | File _ => []
  | Dir es =>
      flat_map (fun e => match e with
                         | (x, c) => rename_log replacements (root ++ [x]) c
                         end) es
      ++ flat_map (file_event replacements root)
           (Entries.names (filter (fun e => negb (is_dir (snd e))) es))
      ++ flat_map (dir_event replacements root)
           (Entries.names (filter (fun e => is_dir (snd e)) es))
  end.

(** The entries of a directory once its sub-directories have been walked. *)
Definition children_renamed (replacements : mapping) (es : entries) : entries :=
  map (fun e => (fst e, rename_tree replacements (snd e))) es.

(** One turn of a loop of step 2 over the directory [root], whose entries
    were [orig] when the loops began, renames the entry it is given and
    prints [line]. *)
Definition renames_one (replacements : mapping) (orig : entries) (root : path)
  (body : string -> state -> outcome state) (line : string -> list event)
  : Prop :=
  forall x done t o,
    In x (Entries.names orig) -> ~ In x done ->
    lookup t root = Some (Dir (renamed replacements done orig)) ->
    body x {| tree := t; out := o |}
    = Ok {| tree := update t root (Dir (renamed replacements (x :: done) orig));
            out := o ++ line x |}.

(** The tree without the contents of its files. *)
Fixpoint shape (t : node) : node :=
  match t with
  | File _ => File EmptyString
  | Dir es => Dir (map (fun e => (fst e, shape (snd e))) es)
  end.

(** ** Sample inputs *)

Module Sample.

Definition env : Cli.environment :=
  {| Cli.git_user_name := Some "A B";
     Cli.git_user_email := Some "a@b.com";
     Cli.os_user := "alice" |}.

(** [--name foo-bar --author "A B" --email a@b.com --description desc]. *)
Definition flags : Cli.argv :=
  {| Cli.flag_name := Some "foo-bar";
     Cli.flag_author := Some "A B";
     Cli.flag_email := Some "a@b.com";
     Cli.flag_description := Some "desc";
     Cli.flag_github := None |}.

Definition args : Cli.Args :=
  {| Cli.name := "foo-bar"; Cli.author := "A B"; Cli.email := "a@b.com";
     Cli.description := "desc"; Cli.github := "a" |}.

(** An author whose value holds the email token. *)
Definition args_author_email : Cli.Args :=
  {| Cli.name := "pkg"; Cli.author := "${email}"; Cli.email := "a@b.com";
     Cli.description := "desc"; Cli.github := "a" |}.

(** An author whose value holds the name token. *)
Definition args_author_name : Cli.Args :=
  {| Cli.name := "pkg"; Cli.author := "${package_name}"; Cli.email := "a@b.com";
     Cli.description := "desc"; Cli.github := "a" |}.

Definition readme_author : state :=
  {| tree := Dir [("README.md", File "by ${author}")]; out := [] |}.

Definition x_mapping : mapping := [("${x}", "X")].

(** [outer-${x}/inner-${x}/file-${x}]. *)
Definition nested : node :=
  Dir [("outer-${x}",
        Dir [("inner-${x}", Dir [("file-${x}", File "text")])])].

(** The same tree next to a directory that already carries the new name. *)
Definition nested_collision : node :=
  Dir [("outer-${x}",
        Dir [("inner-${x}", Dir [("file-${x}", File "text")])]);
       ("outer-X", Dir [])].

(** A file and a directory whose new names are taken by files. *)
Definition collisions : node :=
  Dir [("${x}.txt", File "new"); ("X.txt", File "old");
       ("d-${x}", Dir [("keep", File "k")]); ("d-X", File "taken")].

(** A project: a template file, an undecodable file, hook files under the
    version-control directory, an ignore file, and the tool itself. *)
Definition cwd : path := ["home"; "alice"; "proj"].
Definition script_path : path := ["home"; "alice"; "proj"; ".template"; "init.py"].

Definition project : node :=
  Dir [("README.md",
        File "Hello ${package_name} by ${author} <${email}>: ${description}");
       ("${import_name}", Dir [("__init__.py", File "# ${package_title} ${year}")]);
       ("logo.bin", File (String (ascii_of_nat 255) "${author}"));
       (".gitignore", File "*.md");
       (".git", Dir [("hooks", Dir [("${package_name}.sample", File "${author}")])]);
       (".template", Dir [("init.py", File "r'${package_name}'")])].

End Sample.

(** ** Notions used by the further properties *)

(** Every byte is below 128. *)
Fixpoint is_ascii (s : string) : bool :=
  match s with
  | EmptyString => true
  | String c s' => Nat.ltb (nat_of_ascii c) 128 && is_ascii s'
  end.

(** Some byte of [s] satisfies [P]. *)
Fixpoint any_byte (P : ascii -> bool) (s : string) : bool :=
  match s with
  | EmptyString => false
  | String c s' => P c || any_byte P s'
  end.

(** The bytes C0, C1 and F5 to FF. *)
Definition stray_byte (c : ascii) : bool :=
  Nat.eqb (nat_of_ascii c) 192 || Nat.eqb (nat_of_ascii c) 193
  || Nat.leb 245 (nat_of_ascii c).

(** Keys that are not empty, and keys and values that are encoded text. *)
Definition encodable (replacements : mapping) : bool :=
  forallb (fun kv => negb (String.eqb (fst kv) EmptyString)
                     && Utf8.valid (fst kv) && Utf8.valid (snd kv))
          replacements.


(** * Properties *)

(** ** Strings *)

Section StringFacts.

Lemma append_empty_r (s : string) : (s ++ "")%string = s.
Proof. induction s as [|c s IH]; simpl; [reflexivity | now rewrite IH]. Qed.

Lemma append_assoc (a b c : string) :
  ((a ++ b) ++ c)%string = (a ++ (b ++ c))%string.
Proof. induction a as [|x a IH]; simpl; [reflexivity | now rewrite IH]. Qed.

Lemma starts_with_app (k rest : string) : starts_with k (k ++ rest) = true.
Proof.
  induction k as [|a k IH]; simpl; [reflexivity|].
  now rewrite Ascii.eqb_refl, IH.
Qed.

Lemma starts_with_split (k s : string) :
  starts_with k s = true -> exists rest, s = (k ++ rest)%string.
Proof.
  revert s; induction k as [|a k IH]; intros s H.
  - now exists s.
  - destruct s as [|b s]; simpl in H; [discriminate|].
    apply andb_true_iff in H as [Hab Hk].
    apply Ascii.eqb_eq in Hab; subst b.
    destruct (IH _ Hk) as [rest ->].
    now exists rest.
Qed.

Lemma starts_with_trans (m k s : string) :
  starts_with m k = true -> starts_with k s = true -> starts_with m s = true.
Proof.
  intros Hm Hk.
  destruct (starts_with_split _ _ Hm) as [r1 ->].
  destruct (starts_with_split _ _ Hk) as [r2 ->].
  rewrite append_assoc. apply starts_with_app.
Qed.

(** Characters still to be skipped are dropped unseen. *)
Lemma replace_from_skip (old new u rest : string) :
  replace_from old new (String.length u) (u ++ rest) = replace_from old new 0 rest.
Proof.
  induction u as [|c u IH]; simpl; [reflexivity | exact IH].
Qed.

(** One step of the scan at an occurrence of [old]. *)
Lemma replace_from_hit (a : ascii) (old' new rest : string) :
  replace_from (String a old') new 0 (String a old' ++ rest)
  = (new ++ replace_from (String a old') new 0 rest)%string.
Proof.
  change (String a old' ++ rest)%string with (String a (old' ++ rest)).
  cbn [replace_from].
  change (String a (old' ++ rest)) with (String a old' ++ rest)%string.
  rewrite starts_with_app.
  cbn [String.length]. rewrite Nat.sub_1_r. cbn [Nat.pred].
  now rewrite replace_from_skip.
Qed.

(** One step of the scan elsewhere. *)
Lemma replace_from_miss (old new : string) (c : ascii) (s : string) :
  starts_with old (String c s) = false ->
  replace_from old new 0 (String c s) = String c (replace_from old new 0 s).
Proof. intros H. cbn [replace_from]. now rewrite H. Qed.

Lemma occurs_tail (k : string) (c : ascii) (s : string) :
  occurs k (String c s) = false ->
  starts_with k (String c s) = false /\ occurs k s = false.
Proof. cbn [occurs]. intros H. now apply orb_false_iff in H. Qed.

(** A key that does not occur leaves the text as it is. *)
Lemma replace_absent (s old new : string) :
  occurs old s = false -> replace s old new = s.
Proof.
  destruct old as [|a old'].
  - destruct s; discriminate.
  - unfold replace. induction s as [|c s IH]; intros H; [reflexivity|].
    apply occurs_tail in H as [Hh Ht].
    rewrite replace_from_miss by exact Hh.
    now rewrite IH.
Qed.

Lemma apply_replacements_absent (m : mapping) (s : string) :
  forallb (fun k => negb (occurs k s)) (keys m) = true ->
  apply_replacements m s = s.
Proof.
  unfold apply_replacements.
  induction m as [|[k v] m IH]; intros H; [reflexivity|].
  cbn in H. apply andb_true_iff in H as [Hk Hm].
  cbn [fold_left fst snd].
  rewrite replace_absent by now apply negb_true_iff.
  now apply IH.
Qed.

(** A non-empty key standing alone is replaced by its value, whatever the
    value holds. *)
Lemma replace_self (k v : string) : k <> EmptyString -> replace k k v = v.
Proof.
  destruct k as [|a k']; [congruence|]; intros _.
  unfold replace.
  rewrite <- (append_empty_r (String a k')) at 2.
  rewrite replace_from_hit. cbn [replace_from]. apply append_empty_r.
Qed.

Lemma apply_replacements_app (m1 m2 : mapping) (s : string) :
  apply_replacements (m1 ++ m2) s = apply_replacements m2 (apply_replacements m1 s).
Proof. unfold apply_replacements. apply fold_left_app. Qed.

(** Replacing one character by another is a character-wise map. *)
Lemma replace_char (s : string) (a b : ascii) :
  replace s (String a "") (String b "")
  = map_chars (fun c => if Ascii.eqb c a then b else c) s.
Proof.
  unfold replace. induction s as [|c s IH]; [reflexivity|].
  cbn [replace_from starts_with map_chars String.length Nat.sub].
  rewrite Ascii.eqb_sym.
  destruct (Ascii.eqb c a); cbn; now rewrite IH.
Qed.


End StringFacts.

(** ** Tokens never survive in guarded text *)

Section Guarded.

Lemma guarded_tail (ks : list string) (c : ascii) (s : string) :
  guarded ks (String c s) = true -> guarded ks s = true.
Proof. cbn [guarded]. intros H. now apply andb_true_iff in H. Qed.

Lemma guarded_suffix (ks : list string) (u s : string) :
  guarded ks (u ++ s) = true -> guarded ks s = true.
Proof.
  induction u as [|c u IH]; intros H; [exact H|].
  apply IH. exact (guarded_tail _ _ _ H).
Qed.

Lemma guarded_head (ks : list string) (s : string) :
  guarded ks s = true -> starts_with marker s = true ->
  existsb (fun k => starts_with k s) ks = true.
Proof.
  intros H Hm. destruct s as [|c s]; [discriminate|].
  cbn [guarded] in H. apply andb_true_iff in H as [H _].
  rewrite Hm in H. exact H.
Qed.

(** Text without dollar in front of guarded text is guarded. *)
Lemma guarded_prepend (ks : list string) (v t : string) :
  has_char "$" v = false -> guarded ks t = true -> guarded ks (v ++ t) = true.
Proof.
  induction v as [|c v IH]; intros Hv Ht; [exact Ht|].
  cbn [has_char] in Hv. apply orb_false_iff in Hv as [Hc Hv].
  change (String c v ++ t)%string with (String c (v ++ t)).
  cbn [guarded]. rewrite (IH Hv Ht), andb_true_r.
  unfold marker. cbn [starts_with].
  now rewrite Hc.
Qed.

Lemma guarded_none (s : string) : guarded [] s = true -> occurs marker s = false.
Proof.
  induction s as [|c s IH]; intros H.
  - reflexivity.
  - pose proof (guarded_tail _ _ _ H) as Ht.
    cbn [guarded existsb] in H. apply andb_true_iff in H as [H _].
    rewrite orb_false_r in H. apply negb_true_iff in H.
    cbn [occurs]. rewrite H. cbn. now apply IH.
Qed.

Lemma token_shaped_inv (k : string) :
  token_shaped k = true ->
  exists rest, k = String "$" (String "{" rest) /\ has_char "$" rest = false.
Proof.
  destruct k as [|a [|b rest]]; cbn; try discriminate.
  intros H. apply andb_true_iff in H as [H Hr].
  apply andb_true_iff in H as [Ha Hb].
  apply Ascii.eqb_eq in Ha, Hb. subst.
  exists rest. split; [reflexivity | now apply negb_true_iff].
Qed.

Lemma token_shaped_marker (k : string) :
  token_shaped k = true -> starts_with marker k = true.
Proof.
  intros H. destruct (token_shaped_inv _ H) as (rest & -> & _). reflexivity.
Qed.

Variables (k v : string).
Hypothesis k_shaped : token_shaped k = true.
Hypothesis v_plain : plain_value v = true.

Local Abbreviation R := (replace_from k v 0).

Lemma key_needs_dollar (c : ascii) (s : string) :
  Ascii.eqb c "$" = false -> starts_with k (String c s) = false.
Proof.
  intros Hc. destruct (token_shaped_inv _ k_shaped) as (rest & -> & _).
  cbn [starts_with]. rewrite Ascii.eqb_sym, Hc. reflexivity.
Qed.

(** Text without dollar is copied by the scan. *)
Lemma scan_copies (u t : string) :
  has_char "$" u = false -> R (u ++ t) = (u ++ R t)%string.
Proof.
  induction u as [|c u IH]; intros Hu; [reflexivity|].
  cbn [has_char] in Hu. apply orb_false_iff in Hu as [Hc Hu].
  change (String c u ++ t)%string with (String c (u ++ t)).
  rewrite replace_from_miss.
  - now rewrite IH.
  - apply key_needs_dollar. now rewrite Ascii.eqb_sym.
Qed.

Lemma value_first :
  exists c v', v = String c v' /\ Ascii.eqb c "{" = false /\ has_char "$" v = false.
Proof.
  destruct v as [|c v']; [discriminate|].
  cbn [plain_value] in v_plain. apply andb_true_iff in v_plain as [H1 H2].
  exists c, v'. split; [reflexivity|].
  split; [now apply negb_true_iff | now apply negb_true_iff in H2].
Qed.

(** The scan puts an opening brace in front only where one stood. *)
Lemma scan_brace (s : string) :
  starts_with "{" (R s) = true -> starts_with "{" s = true.
Proof.
  destruct s as [|c s]; [discriminate|].
  destruct (starts_with k (String c s)) eqn:Hk.
  - destruct (starts_with_split _ _ Hk) as [rest E]. rewrite E.
    destruct (token_shaped_inv _ k_shaped) as (kr & Ek & _).
    rewrite Ek at 1 2. rewrite replace_from_hit.
    destruct value_first as (c0 & v' & -> & Hc0 & _).
    cbn [append starts_with]. rewrite Ascii.eqb_sym, Hc0. discriminate.
  - rewrite replace_from_miss by exact Hk.
    cbn [starts_with]. now rewrite !andb_true_r.
Qed.

(** One pass keeps the text guarded by the keys still to come. *)
Lemma guarded_step (ks : list string) :
  forallb token_shaped ks = true ->
  forall n s, String.length s <= n ->
    guarded (k :: ks) s = true -> guarded ks (R s) = true.
Proof.
  intros Hks. induction n as [|n IH]; intros s Hn Hg.
  - destruct s; [reflexivity | cbn in Hn; lia].
  - destruct s as [|c s]; [reflexivity|].
    destruct (starts_with k (String c s)) eqn:Hk.
    + destruct (starts_with_split _ _ Hk) as [rest E]. rewrite E in *.
      destruct (token_shaped_inv _ k_shaped) as (kr & Ek & _).
      rewrite Ek at 1 2. rewrite replace_from_hit. rewrite <- Ek.
      destruct value_first as (_ & _ & _ & _ & Hv).
      apply guarded_prepend; [exact Hv|].
      apply IH.
      * rewrite Ek in Hn. cbn in Hn.
        assert (String.length rest <= String.length (kr ++ rest)).
        { clear. induction kr; cbn; lia. }
        lia.
      * exact (guarded_suffix _ _ _ Hg).
    + rewrite replace_from_miss by exact Hk.
      cbn [guarded].
      assert (Ht : guarded ks (R s) = true).
      { apply IH; [cbn in Hn; lia | exact (guarded_tail _ _ _ Hg)]. }
      rewrite Ht, andb_true_r.
      destruct (starts_with marker (String c (R s))) eqn:Hm; [|reflexivity].
      cbn [negb orb].
      unfold marker in Hm. cbn [starts_with] in Hm.
      apply andb_true_iff in Hm as [Hc Hb].
      apply Ascii.eqb_eq in Hc. subst c.
      assert (Hb' : starts_with "{" s = true).
      { apply scan_brace. cbn [starts_with]. exact Hb. }
      assert (Hms : starts_with marker (String "$" s) = true).
      { unfold marker. cbn [starts_with]. cbn [starts_with] in Hb'.
        now rewrite Hb'. }
      pose proof (guarded_head _ _ Hg Hms) as Hex.
      cbn [existsb] in Hex. rewrite Hk in Hex. cbn [orb] in Hex.
      apply existsb_exists in Hex as (k' & Hin & Hk').
      apply existsb_exists. exists k'. split; [exact Hin|].
      rewrite forallb_forall in Hks. specialize (Hks _ Hin).
      destruct (token_shaped_inv _ Hks) as (r' & -> & Hr').
      destruct (starts_with_split _ _ Hk') as [tl Etl].
      change (String "$" (String "{" r') ++ tl)%string
        with (String "$" (String "{" r' ++ tl)) in Etl.
      injection Etl as Es. subst s.
      pose proof (scan_copies (String "{" r') tl) as Ec.
      cbn [has_char] in Ec. rewrite Hr' in Ec.
      specialize (Ec eq_refl). cbn [append] in Ec.
      cbn [starts_with]. rewrite !Ascii.eqb_refl. cbn [andb].
      rewrite Ec. cbn [starts_with]. rewrite Ascii.eqb_refl. cbn [andb].
      apply starts_with_app.
Qed.

End Guarded.

(** Sequential replacement of token-shaped keys by plain values clears
    guarded text of the marker. *)
Lemma apply_replacements_clears (m : mapping) (s : string) :
  forallb token_shaped (keys m) = true ->
  forallb plain_value (map snd m) = true ->
  guarded (keys m) s = true ->
  occurs marker (apply_replacements m s) = false.
Proof.
  revert s. induction m as [|[k v] m IH]; intros s Hk Hv Hg.
  - cbn. now apply guarded_none.
  - cbn in Hk, Hv. apply andb_true_iff in Hk as [Hk Hks].
    apply andb_true_iff in Hv as [Hv Hvs].
    unfold apply_replacements. cbn [fold_left fst snd].
    apply IH; [exact Hks | exact Hvs |].
    destruct (token_shaped_inv _ Hk) as (kr & Ek & _).
    assert (replace s k v = replace_from k v 0 s) as ->
      by (rewrite Ek; reflexivity).
    apply guarded_step with (n := String.length s); auto.
Qed.

Lemma no_marker_no_key (k s : string) :
  starts_with marker k = true -> occurs marker s = false -> occurs k s = false.
Proof.
  intros Hk. induction s as [|c s IH]; intros H.
  - cbn in *. destruct k; [discriminate | reflexivity].
  - apply occurs_tail in H as [Hh Ht].
    cbn [occurs]. rewrite (IH Ht), orb_false_r.
    destruct (starts_with k (String c s)) eqn:E; [|reflexivity].
    now rewrite (starts_with_trans _ _ _ Hk E) in Hh.
Qed.

Lemma no_marker_token_free (s : string) :
  occurs marker s = false -> token_free s = true.
Proof.
  intros H. unfold token_free. apply forallb_forall. intros k Hin.
  apply negb_true_iff. apply no_marker_no_key; [|exact H].
  unfold tokens in Hin. cbn in Hin.
  repeat (destruct Hin as [<- | Hin]; [reflexivity|]). contradiction.
Qed.

(** ** Directory entries and paths *)

Lemma node_induction (P : node -> Prop) :
  (forall data, P (File data)) ->
  (forall es, Forall (fun e => P (snd e)) es -> P (Dir es)) ->
  forall t, P t.
Proof.
  intros HF HD. fix IH 1. intros [data|es].
  - apply HF.
  - apply HD. induction es as [|e es IHes]; constructor.
    + apply IH.
    + exact IHes.
Qed.

Lemma mem_In (x : string) (l : list string) : mem x l = true <-> In x l.
Proof.
  unfold mem. rewrite existsb_exists. split.
  - intros (y & Hy & E). apply String.eqb_eq in E. now subst.
  - intros H. exists x. split; [exact H | apply String.eqb_refl].
Qed.

Lemma mem_not_In (x : string) (l : list string) : mem x l = false <-> ~ In x l.
Proof.
  rewrite <- mem_In. destruct (mem x l); split; congruence.
Qed.

Lemma distinct_NoDup (l : list string) : distinct l = true <-> NoDup l.
Proof.
  induction l as [|x l IH]; cbn [distinct].
  - split; [constructor | reflexivity].
  - rewrite andb_true_iff, negb_true_iff, mem_not_In, IH. split.
    + intros [H1 H2]. now constructor.
    + intros H. inversion H; subst. now split.
Qed.

Module EntriesFacts.
Import Entries.

Lemma get_none (x : string) (es : entries) :
  get x es = None <-> ~ In x (names es).
Proof.
  induction es as [|[y n] es IH]; cbn.
  - tauto.
  - destruct (String.eqb x y) eqn:E.
    + apply String.eqb_eq in E. subst. split; [discriminate | tauto].
    + apply String.eqb_neq in E. rewrite IH. split; [intros H [?|?]|]; try tauto.
      congruence.
Qed.

Lemma get_some_in (x : string) (n : node) (es : entries) :
  get x es = Some n -> In (x, n) es.
Proof.
  induction es as [|[y m] es IH]; cbn; [discriminate|].
  destruct (String.eqb x y) eqn:E.
  - apply String.eqb_eq in E. intros [= ->]. subst. now left.
  - intros H. right. now apply IH.
Qed.

Lemma get_app (x : string) (a b : entries) :
  get x (a ++ b) = match get x a with Some n => Some n | None => get x b end.
Proof.
  induction a as [|[y n] a IH]; cbn; [reflexivity|].
  now destruct (String.eqb x y).
Qed.

Lemma get_set_same (x : string) (n : node) (es : entries) :
  get x (set x n es) = Some n.
Proof.
  induction es as [|[y m] es IH]; cbn.
  - now rewrite String.eqb_refl.
  - destruct (String.eqb x y) eqn:E; cbn; rewrite E; [reflexivity | exact IH].
Qed.

Lemma get_set_other (x y : string) (n : node) (es : entries) :
  x <> y -> get y (set x n es) = get y es.
Proof.
  intros Hxy. induction es as [|[z m] es IH]; cbn.
  - apply String.eqb_neq in Hxy. rewrite String.eqb_sym in Hxy. now rewrite Hxy.
  - destruct (String.eqb x z) eqn:E; cbn.
    + apply String.eqb_eq in E. subst z.
      apply String.eqb_neq in Hxy. rewrite String.eqb_sym in Hxy. now rewrite Hxy.
    + now rewrite IH.
Qed.

Lemma set_set (x : string) (n m : node) (es : entries) :
  set x n (set x m es) = set x n es.
Proof.
  induction es as [|[y k] es IH]; cbn.
  - now rewrite String.eqb_refl.
  - destruct (String.eqb x y) eqn:E; cbn; rewrite E; [reflexivity | now rewrite IH].
Qed.

Lemma set_get_id (x : string) (c : node) (es : entries) :
  get x es = Some c -> set x c es = es.
Proof.
  induction es as [|[y k] es IH]; cbn; [discriminate|].
  destruct (String.eqb x y) eqn:E.
  - now intros [= ->].
  - intros H. now rewrite IH.
Qed.

Lemma set_middle (x : string) (n c : node) (a b : entries) :
  get x a = None -> set x n (a ++ (x, c) :: b) = a ++ (x, n) :: b.
Proof.
  induction a as [|[y k] a IH]; cbn.
  - now rewrite String.eqb_refl.
  - destruct (String.eqb x y); [discriminate|]. intros H. now rewrite IH.
Qed.

Lemma names_app (a b : entries) : names (a ++ b) = names a ++ names b.
Proof. apply map_app. Qed.

End EntriesFacts.

Module TreeFacts.
Import Entries EntriesFacts.

Lemma lookup_app (p q : path) : forall t,
  lookup t (p ++ q)
  = match lookup t p with Some n => lookup n q | None => None end.
Proof.
  induction p as [|x p IH]; intros t; cbn; [reflexivity|].
  destruct t as [|es]; [reflexivity|].
  destruct (get x es); [apply IH | reflexivity].
Qed.

Lemma update_id (p : path) : forall t n, lookup t p = Some n -> update t p n = t.
Proof.
  induction p as [|x p IH]; intros t n; cbn.
  - now intros [= ->].
  - destruct t as [|es]; [discriminate|].
    destruct (get x es) as [c|] eqn:E; [|discriminate].
    intros H. rewrite (IH _ _ H). now rewrite set_get_id.
Qed.

Lemma lookup_update (p : path) : forall t a b,
  lookup t p = Some a -> lookup (update t p b) p = Some b.
Proof.
  induction p as [|x p IH]; intros t a b; cbn; [reflexivity|].
  destruct t as [|es]; [discriminate|].
  destruct (get x es) as [c|] eqn:E; [|discriminate].
  intros H. cbn. rewrite get_set_same. now apply IH with (a := a).
Qed.

Lemma update_update (p : path) : forall t a b c,
  lookup t p = Some a -> update (update t p b) p c = update t p c.
Proof.
  induction p as [|x p IH]; intros t a b c; cbn; [reflexivity|].
  destruct t as [|es]; [discriminate|].
  destruct (get x es) as [k|] eqn:E; [|discriminate].
  intros H. cbn. rewrite get_set_same, set_set. now rewrite (IH _ _ _ _ H).
Qed.

Lemma update_child (p : path) (d : string) (n : node) : forall t es c,
  lookup t p = Some (Dir es) -> get d es = Some c ->
  update t (p ++ [d]) n = update t p (Dir (set d n es)).
Proof.
  induction p as [|x p IH]; intros t es c; cbn.
  - intros [= ->] E. now rewrite E.
  - destruct t as [|es']; [discriminate|].
    destruct (get x es') as [k|] eqn:E; [|discriminate].
    intros H Hd. now rewrite (IH _ _ _ H Hd).
Qed.

Lemma at_dir_update (p : path) (f : entries -> outcome entries) : forall t es,
  lookup t p = Some (Dir es) ->
  at_dir p f t = (es' <- f es ;; Ok (update t p (Dir es'))).
Proof.
  induction p as [|x p IH]; intros t es; cbn.
  - intros [= ->]. reflexivity.
  - destruct t as [|es0]; [discriminate|].
    destruct (get x es0) as [k|] eqn:E; [|discriminate].
    intros H. rewrite (IH _ _ H).
    now destruct (f es).
Qed.

Lemma makedirs_present (p : path) : forall t es,
  lookup t p = Some (Dir es) -> makedirs p t = Ok t.
Proof.
  induction p as [|x p IH]; intros t es; cbn.
  - now intros [= ->].
  - destruct t as [|es0]; [discriminate|].
    destruct (get x es0) as [k|] eqn:E; [|discriminate].
    intros H. rewrite (IH _ _ H). cbn. now rewrite set_get_id.
Qed.

End TreeFacts.

(** ** Step 2 computes the renamed tree *)

Section RenameStage.
Import Entries EntriesFacts TreeFacts.

Variable repl : mapping.
Local Abbreviation new := (new_name repl).

Lemma NoDup_map_injective (A B : Type) (f : A -> B) (l : list A) (x y : A) :
  NoDup (map f l) -> In x l -> In y l -> f x = f y -> x = y.
Proof.
  induction l as [|a l IH]; cbn; [tauto|].
  intros H Hx Hy E. inversion H as [|? ? Hnotin Hnd]; subst.
  destruct Hx as [->|Hx], Hy as [->|Hy]; try reflexivity.
  - exfalso. apply Hnotin. rewrite E. now apply in_map.
  - exfalso. apply Hnotin. rewrite <- E. now apply in_map.
  - now apply IH.
Qed.

Lemma classify_component (n : string) :
  component n = true -> classify n = Child n.
Proof.
  unfold component, classify.
  destruct (has_char "/" n); [discriminate|].
  destruct (String.eqb n ".."); [discriminate|].
  now destruct (String.eqb n "" || String.eqb n ".").
Qed.

Section OneDirectory.

Variable orig : entries.
Local Abbreviation ns := (names orig).
Hypothesis safe : safe_names repl ns = true.

Lemma safe_injective (x y : string) :
  In x ns -> In y ns -> new x = new y -> x = y.
Proof.
  unfold safe_names in safe. apply andb_true_iff in safe as [Hd _].
  apply distinct_NoDup in Hd. now apply NoDup_map_injective.
Qed.

Lemma safe_fresh (x : string) :
  In x ns -> new x <> x -> classify (new x) = Child (new x) /\ ~ In (new x) ns.
Proof.
  intros Hx Hne.
  unfold safe_names in safe. apply andb_true_iff in safe as [_ Hall].
  rewrite forallb_forall in Hall. specialize (Hall _ Hx).
  apply orb_true_iff in Hall as [E|H].
  - apply String.eqb_eq in E. congruence.
  - apply andb_true_iff in H as [Hc Hm]. split.
    + now apply classify_component.
    + apply mem_not_In. now apply negb_true_iff.
Qed.

Lemma names_renamed (done : list string) :
  names (renamed repl done orig)
  = map (fun y => if mem y done then new y else y) ns.
Proof. unfold renamed, names. now rewrite !map_map. Qed.

Lemma source_present (done : list string) (x : string) :
  In x ns -> ~ In x done -> get x (renamed repl done orig) <> None.
Proof.
  intros Hx Hd Hnone. apply get_none in Hnone. apply Hnone.
  rewrite names_renamed. apply in_map_iff. exists x. split; [|exact Hx].
  apply mem_not_In in Hd. now rewrite Hd.
Qed.

Lemma destination_free (done : list string) (x : string) :
  In x ns -> ~ In x done -> new x <> x ->
  get (new x) (renamed repl done orig) = None.
Proof.
  intros Hx Hd Hne. apply get_none. rewrite names_renamed.
  intros Hin. apply in_map_iff in Hin as (y & Ey & Hy).
  destruct (mem y done) eqn:Hm.
  - apply safe_injective in Ey; [|exact Hy|exact Hx]. subst y.
    apply mem_In in Hm. contradiction.
  - subst y. now destruct (safe_fresh x Hx Hne).
Qed.

Lemma rename_renamed (done : list string) (x : string) :
  In x ns -> ~ In x done ->
  rename x (new x) (renamed repl done orig) = renamed repl (x :: done) orig.
Proof.
  intros Hx Hd. unfold rename, renamed. rewrite map_map.
  apply map_ext_in. intros [y c] Hin. cbn [fst snd]. f_equal.
  assert (Hy : In y ns) by (apply in_map_iff; now exists (y, c)).
  cbn [mem existsb]. fold (mem y done).
  destruct (String.eqb y x) eqn:Eyx.
  - apply String.eqb_eq in Eyx. subst y.
    apply mem_not_In in Hd. rewrite Hd. cbn. now rewrite String.eqb_refl.
  - apply String.eqb_neq in Eyx. cbn [orb].
    destruct (mem y done) eqn:Hm.
    + destruct (String.eqb (new y) x) eqn:E; [|reflexivity].
      apply String.eqb_eq in E.
      destruct (string_dec (new y) y) as [Eq|Hne]; [congruence|].
      destruct (safe_fresh y Hy Hne) as [_ Hfresh]. rewrite E in Hfresh.
      contradiction.
    + apply String.eqb_neq in Eyx. now rewrite Eyx.
Qed.

Lemma renamed_unchanged (done : list string) (x : string) :
  new x = x -> renamed repl (x :: done) orig = renamed repl done orig.
Proof.
  intros E. unfold renamed. apply map_ext. intros [y c]. cbn [fst snd]. f_equal.
  cbn [mem existsb]. fold (mem y done).
  destruct (String.eqb y x) eqn:Eyx; [|reflexivity].
  apply String.eqb_eq in Eyx. subst y. cbn [orb]. rewrite E.
  now destruct (mem x done).
Qed.

Lemma renamed_all (done : list string) :
  incl ns done ->
  renamed repl done orig = map (fun e => (new (fst e), snd e)) orig.
Proof.
  intros Hall. unfold renamed. apply map_ext_in. intros [y c] Hin. cbn [fst snd].
  assert (Hy : In y done).
  { apply Hall. apply in_map_iff. now exists (y, c). }
  apply mem_In in Hy. now rewrite Hy.
Qed.

Variable root : path.

Lemma moved_in_place (x : string) (done : list string) (t : node) (o : list event) :
  In x ns -> ~ In x done -> new x <> x ->
  lookup t root = Some (Dir (renamed repl done orig)) ->
  (st2 <- on_tree (makedirs root) {| tree := t; out := o |} ;;
   on_tree (shutil_move root x (classify (new x))) st2)
  = Ok {| tree := update t root (Dir (renamed repl (x :: done) orig)); out := o |}.
Proof.
  intros Hx Hd Hne Hl.
  destruct (safe_fresh x Hx Hne) as [Hc _].
  unfold on_tree at 1. cbn [tree out]. rewrite (makedirs_present _ _ _ Hl).
  cbn [bind]. unfold on_tree, shutil_move. cbn [tree out].
  rewrite (at_dir_update _ _ _ _ Hl). rewrite Hc. unfold move_entry.
  destruct (String.eqb x (new x)) eqn:E.
  { apply String.eqb_eq in E. congruence. }
  rewrite (destination_free done x Hx Hd Hne).
  destruct (get x (renamed repl done orig)) eqn:Hs.
  - cbn [bind]. now rewrite rename_renamed.
  - exfalso. now apply (source_present done x Hx Hd).
Qed.

Lemma new_name_marker (x : string) :
  occurs marker x = true -> apply_replacements repl x = new x.
Proof. intros H. unfold new_name. now rewrite H. Qed.

Lemma new_name_plain (x : string) : occurs marker x = false -> new x = x.
Proof. intros H. unfold new_name. now rewrite H. Qed.

Lemma rename_file_one :
  renames_one repl orig root (rename_file repl root) (file_event repl root).
Proof.
  intros x done t o Hx Hd Hl. unfold rename_file, file_event.
  destruct (occurs marker x) eqn:Hm.
  - rewrite (new_name_marker x Hm).
    destruct (String.eqb x (new x)) eqn:E.
    + apply String.eqb_eq in E. rewrite app_nil_r.
      rewrite renamed_unchanged by congruence.
      now rewrite (update_id _ _ _ Hl).
    + apply String.eqb_neq in E.
      assert (Hne : new x <> x) by congruence.
      destruct (safe_fresh x Hx Hne) as [Hc _].
      rewrite Hc. rewrite <- Hc. unfold print. cbn [tree out].
      now apply moved_in_place.
  - rewrite (new_name_plain x Hm), String.eqb_refl, app_nil_r.
    rewrite renamed_unchanged by now apply new_name_plain.
    now rewrite (update_id _ _ _ Hl).
Qed.

Lemma rename_dir_one :
  renames_one repl orig root (rename_dir repl root) (dir_event repl root).
Proof.
  intros x done t o Hx Hd Hl. unfold rename_dir, dir_event.
  destruct (occurs marker x) eqn:Hm.
  - rewrite (new_name_marker x Hm).
    destruct (String.eqb x (new x)) eqn:E.
    + apply String.eqb_eq in E. rewrite app_nil_r.
      rewrite renamed_unchanged by congruence.
      now rewrite (update_id _ _ _ Hl).
    + apply String.eqb_neq in E.
      assert (Hne : new x <> x) by congruence.
      destruct (safe_fresh x Hx Hne) as [Hc _].
      rewrite Hc. unfold print. cbn [tree out target_exists bind].
      unfold path_exists. rewrite lookup_app, Hl. cbn [lookup].
      rewrite (destination_free done x Hx Hd Hne).
      rewrite <- Hc. now apply moved_in_place.
  - rewrite (new_name_plain x Hm), String.eqb_refl, app_nil_r.
    rewrite renamed_unchanged by now apply new_name_plain.
    now rewrite (update_id _ _ _ Hl).
Qed.

(** A loop over names not yet handled renames each of them, and prints
    their lines in turn. *)
Lemma loop_renames (body : string -> state -> outcome state)
  (line : string -> list event) :
  renames_one repl orig root body line ->
  forall todo done t o,
    NoDup todo -> (forall x, In x todo -> In x ns /\ ~ In x done) ->
    lookup t root = Some (Dir (renamed repl done orig)) ->
    for_each body todo {| tree := t; out := o |}
    = Ok {| tree := update t root (Dir (renamed repl (rev todo ++ done) orig));
            out := o ++ flat_map line todo |}.
Proof.
  intros Hbody. induction todo as [|x todo IH]; intros done t o Hnd Hin Hl.
  - cbn. now rewrite (update_id _ _ _ Hl), app_nil_r.
  - inversion Hnd as [|? ? Hx Hnd']; subst.
    destruct (Hin x (or_introl eq_refl)) as [Hxn Hxd].
    cbn [for_each]. rewrite (Hbody x done t o Hxn Hxd Hl). cbn [bind].
    rewrite (IH (x :: done) _ _ Hnd').
    2:{ intros y Hy. destruct (Hin y (or_intror Hy)) as [Hyn Hyd].
        split; [exact Hyn|]. intros [->|H]; contradiction. }
    2:{ now apply lookup_update with (a := Dir (renamed repl done orig)). }
    rewrite (update_update _ _ _ _ _ Hl).
    cbn [rev flat_map]. now rewrite <- !app_assoc.
Qed.

End OneDirectory.

End RenameStage.

Section WholeTree.
Import Entries EntriesFacts TreeFacts.

Variable repl : mapping.

Local Abbreviation children_renamed := (children_renamed repl).

Lemma names_children_renamed (es : entries) :
  names (children_renamed es) = names es.
Proof. unfold children_renamed, names. rewrite map_map. reflexivity. Qed.

Lemma renamed_nil (es : entries) : renamed repl [] es = es.
Proof.
  unfold renamed. rewrite <- (map_id es) at 2. apply map_ext. now intros [y c].
Qed.

Lemma names_filter_incl (f : string * node -> bool) (es : entries) (x : string) :
  In x (names (filter f es)) -> In x (names es).
Proof.
  unfold names. intros H. apply in_map_iff in H as (e & E & He).
  apply filter_In in He as [He _]. apply in_map_iff. now exists e.
Qed.

Lemma names_filter_NoDup (f : string * node -> bool) (es : entries) :
  NoDup (names es) -> NoDup (names (filter f es)).
Proof.
  induction es as [|e es IH]; cbn; [constructor|].
  intros H. inversion H as [|? ? Hn Hd]; subst.
  destruct (f e); [|now apply IH].
  cbn. constructor; [|now apply IH].
  intros Hin. apply Hn. now apply names_filter_incl in Hin.
Qed.

Lemma names_filter_disjoint (f : string * node -> bool) (es : entries) (x : string) :
  NoDup (names es) ->
  In x (names (filter f es)) ->
  In x (names (filter (fun e => negb (f e)) es)) -> False.
Proof.
  induction es as [|e es IH]; cbn; [tauto|].
  intros H. inversion H as [|? ? Hn Hd]; subst.
  destruct (f e); cbn.
  - intros [E|H1] H2.
    + subst x. apply Hn. now apply names_filter_incl in H2.
    + now apply IH.
  - intros H1 [E|H2].
    + subst x. apply Hn. now apply names_filter_incl in H1.
    + now apply IH.
Qed.

Lemma names_filter_cover (f : string * node -> bool) (es : entries) (x : string) :
  In x (names es) ->
  In x (names (filter f es)) \/ In x (names (filter (fun e => negb (f e)) es)).
Proof.
  unfold names. intros H. apply in_map_iff in H as (e & E & He).
  destruct (f e) eqn:Hf; [left | right]; apply in_map_iff; exists e;
    (split; [exact E | apply filter_In; split; [exact He | now rewrite Hf]]).
Qed.

Lemma safe_names_NoDup (ns : list string) :
  safe_names repl ns = true -> NoDup ns.
Proof.
  unfold safe_names. intros H. apply andb_true_iff in H as [H _].
  apply distinct_NoDup in H. now apply NoDup_map_inv in H.
Qed.

Lemma height_children (es : entries) (f : nat) :
  height (Dir es) <= S f -> Forall (fun e => height (snd e) <= f) es.
Proof.
  cbn [height]. intros H. apply le_S_n in H.
  induction es as [|e es IH]; constructor; cbn [fold_right] in H.
  - lia.
  - apply IH. lia.
Qed.

Section Children.

Variable W : path -> state -> outcome state.
Variable f : nat.
Hypothesis W_correct :
  forall q t es o,
    lookup t q = Some (Dir es) ->
    rename_safe repl (Dir es) = true ->
    height (Dir es) <= f ->
    W q {| tree := t; out := o |}
    = Ok {| tree := update t q (rename_tree repl (Dir es));
            out := o ++ rename_log repl q (Dir es) |}.

Variable root : path.

(** The walks into the directories of [root], one after the other. *)
Lemma children_walked :
  forall rest done t o,
    lookup t root = Some (Dir (done ++ rest)) ->
    NoDup (names (done ++ rest)) ->
    Forall (fun e => rename_safe repl (snd e) = true /\ height (snd e) <= f) rest ->
    for_each (fun d => W (root ++ [d]))
             (names (filter (fun e => is_dir (snd e)) rest))
             {| tree := t; out := o |}
    = Ok {| tree := update t root (Dir (done ++ children_renamed rest));
            out := o ++ flat_map
                          (fun e => match e with
                                    | (x, c) => rename_log repl (root ++ [x]) c
                                    end) rest |}.
Proof.
  induction rest as [|[x c] rest IH]; intros done t o Hl Hnd Hall.
  - cbn. now rewrite (update_id _ _ _ Hl), app_nil_r.
  - inversion Hall as [|? ? [Hs Hh] Hall']; subst. cbn [snd] in Hs, Hh.
    assert (Hfresh : get x done = None).
    { apply get_none. intros Hin. rewrite names_app in Hnd.
      apply NoDup_remove_2 in Hnd. apply Hnd. apply in_or_app. now left. }
    assert (Hnext : forall c' (tl : entries),
               (done ++ [(x, c')]) ++ tl = done ++ (x, c') :: tl).
    { intros c' tl. now rewrite <- app_assoc. }
    destruct c as [data|sub].
    + cbn [filter snd is_dir children_renamed map fst rename_tree flat_map
           rename_log app].
      fold (children_renamed rest).
      rewrite <- (Hnext (File data) (children_renamed rest)).
      apply IH; [now rewrite Hnext | now rewrite Hnext | exact Hall'].
    + cbn [filter snd is_dir names map fst for_each flat_map].
      fold (names (filter (fun e => is_dir (snd e)) rest)).
      assert (Hsub : lookup t (root ++ [x]) = Some (Dir sub)).
      { rewrite lookup_app, Hl. cbn [lookup]. rewrite get_app, Hfresh. cbn [get].
        now rewrite String.eqb_refl. }
      rewrite (W_correct (root ++ [x]) t sub o Hsub Hs Hh). cbn [bind].
      assert (Et : update t (root ++ [x]) (rename_tree repl (Dir sub))
                   = update t root
                       (Dir ((done ++ [(x, rename_tree repl (Dir sub))]) ++ rest))).
      { rewrite (update_child root x _ t (done ++ (x, Dir sub) :: rest) (Dir sub) Hl).
        - now rewrite set_middle, Hnext.
        - rewrite get_app, Hfresh. cbn [get]. now rewrite String.eqb_refl. }
      rewrite Et.
      rewrite (IH (done ++ [(x, rename_tree repl (Dir sub))])).
      2:{ now apply lookup_update with (a := Dir (done ++ (x, Dir sub) :: rest)). }
      2:{ rewrite Hnext. rewrite names_app in *. exact Hnd. }
      2:{ exact Hall'. }
      rewrite (update_update _ _ _ _ _ Hl).
      cbn [children_renamed map fst snd]. fold (children_renamed rest).
      now rewrite <- !app_assoc.
Qed.

End Children.

Lemma rename_tree_entries (es : entries) :
  rename_tree repl (Dir es)
  = Dir (map (fun e => (new_name repl (fst e), snd e)) (children_renamed es)).
Proof.
  cbn [rename_tree]. unfold children_renamed. rewrite map_map.
  f_equal. apply map_ext. now intros [x c].
Qed.

(** The walk of [os.walk] with the loop body turns the directory at [top]
    into its renamed form, touches nothing else, and prints the lines of
    [rename_log]. *)
Lemma walk_correct :
  forall fuel top t es o,
    lookup t top = Some (Dir es) ->
    rename_safe repl (Dir es) = true ->
    height (Dir es) <= fuel ->
    walk fuel repl top {| tree := t; out := o |}
    = Ok {| tree := update t top (rename_tree repl (Dir es));
            out := o ++ rename_log repl top (Dir es) |}.
Proof.
  induction fuel as [|fuel IH]; intros top t es o Hl Hsafe Hh.
  - cbn in Hh. lia.
  - cbn [walk]. unfold scandir. cbn [tree]. rewrite Hl.
    pose proof Hsafe as Hsafe'. cbn [rename_safe] in Hsafe'.
    apply andb_true_iff in Hsafe' as [Hns Hkids].
    pose proof (safe_names_NoDup _ Hns) as Hnd.
    cbn [rename_log].
    (* the sub-directories *)
    rewrite (children_walked (walk fuel repl) fuel IH top es [] t o).
    2:{ exact Hl. }
    2:{ exact Hnd. }
    2:{ rewrite forallb_forall in Hkids.
        pose proof (height_children es fuel Hh) as Hhs. rewrite Forall_forall in Hhs.
        apply Forall_forall. intros e He. split; [now apply Hkids | now apply Hhs]. }
    cbn [bind app].
    set (dirs := names (filter (fun e => is_dir (snd e)) es)).
    set (files := names (filter (fun e => negb (is_dir (snd e))) es)).
    set (es1 := children_renamed es) in *.
    set (t1 := update t top (Dir es1)) in *.
    assert (Hns1 : safe_names repl (names es1) = true)
      by (unfold es1; now rewrite names_children_renamed).
    assert (Hl1 : lookup t1 top = Some (Dir (renamed repl [] es1))).
    { rewrite renamed_nil. unfold t1. now apply lookup_update with (a := Dir es). }
    (* the files of this directory *)
    rewrite (loop_renames repl es1 top (rename_file repl top) (file_event repl top)
               (rename_file_one repl es1 Hns1 top) files [] t1).
    2:{ now apply names_filter_NoDup. }
    2:{ intros x Hx. split; [|tauto].
        unfold es1. rewrite names_children_renamed. now apply names_filter_incl in Hx. }
    2:{ exact Hl1. }
    cbn [bind].
    set (t2 := update t1 top (Dir (renamed repl (rev files ++ []) es1))) in *.
    (* its directories *)
    rewrite (loop_renames repl es1 top (rename_dir repl top) (dir_event repl top)
               (rename_dir_one repl es1 Hns1 top) dirs (rev files ++ []) t2).
    2:{ now apply names_filter_NoDup. }
    2:{ intros x Hx. split.
        - unfold es1. rewrite names_children_renamed. now apply names_filter_incl in Hx.
        - rewrite app_nil_r, <- in_rev. intros Hf.
          exact (names_filter_disjoint _ es x Hnd Hx Hf). }
    2:{ unfold t2. now apply lookup_update with (a := Dir (renamed repl [] es1)). }
    f_equal. f_equal.
    + unfold t2. rewrite (update_update _ _ _ _ _ Hl1).
      unfold t1. rewrite (update_update _ _ _ _ _ Hl).
      f_equal. rewrite rename_tree_entries. f_equal. fold es1.
      apply renamed_all.
      intros x Hx. unfold es1 in Hx. rewrite names_children_renamed in Hx.
      apply in_or_app.
      destruct (names_filter_cover (fun e => is_dir (snd e)) es x Hx) as [H|H].
      * left. now apply in_rev in H.
      * right. rewrite app_nil_r. now apply in_rev in H.
    + now rewrite <- !app_assoc.
Qed.

End WholeTree.

(** ** Step 1 rewrites the selected files and nothing else *)

Section ContentStage.
Import Entries EntriesFacts TreeFacts.

Lemma path_eqb_eq (p q : path) : path_eqb p q = true <-> p = q.
Proof.
  unfold path_eqb. destruct (list_eq_dec string_dec p q); split; congruence.
Qed.

Lemma path_eqb_refl (p : path) : path_eqb p p = true.
Proof. now apply path_eqb_eq. Qed.

Lemma write_text_update (p : path) : forall t d text,
  lookup t p = Some (File d) -> write_text p text t = update t p (File text).
Proof.
  induction p as [|x p IH]; intros t d text; cbn.
  - now intros [= ->].
  - destruct t as [|es]; [discriminate|].
    destruct (get x es) as [c|] eqn:E; [|discriminate].
    intros H. now rewrite (IH _ _ _ H).
Qed.

Lemma lookup_file_update_other (q : path) : forall t p d dq data,
  lookup t q = Some (File dq) -> lookup t p = Some (File data) -> p <> q ->
  lookup (update t q (File d)) p = Some (File data).
Proof.
  induction q as [|x q IH]; intros t p d dq data Hq Hp Hne.
  - cbn in Hq. injection Hq as ->. destruct p; [congruence | discriminate].
  - cbn in Hq. destruct t as [|es]; [discriminate|].
    destruct (get x es) as [c|] eqn:E; [|discriminate].
    destruct p as [|y p]; [discriminate|].
    cbn [update]. rewrite E. cbn [lookup].
    destruct (string_dec x y) as [->|Hxy].
    + rewrite get_set_same. cbn [lookup] in Hp. rewrite E in Hp.
      apply IH with (dq := dq); [exact Hq | exact Hp | congruence].
    + rewrite get_set_other by exact Hxy. exact Hp.
Qed.

Lemma shape_update_file (q : path) : forall t d dq,
  lookup t q = Some (File dq) -> shape (update t q (File d)) = shape t.
Proof.
  induction q as [|x q IH]; intros t d dq Hq.
  - cbn in Hq. now injection Hq as ->.
  - cbn in Hq. destruct t as [|es]; [discriminate|].
    destruct (get x es) as [c|] eqn:E; [|discriminate].
    cbn [update]. rewrite E. cbn [shape]. f_equal.
    specialize (IH c d dq Hq). clear Hq.
    induction es as [|[y k] es IHes]; [discriminate|].
    cbn [get] in E. cbn [set]. destruct (String.eqb x y).
    * injection E as ->. cbn [map fst snd]. now rewrite IH.
    * cbn [map fst snd]. now rewrite IHes.
Qed.

Variables (cwd script_path : path) (repl : mapping).
Local Abbreviation step := (rewrite_one cwd script_path repl).

Lemma tree_print (e : event) (s : state) : tree (print e s) = tree s.
Proof. reflexivity. Qed.

Lemma step_other (s : state) (q p : path) (data : string) :
  lookup (tree s) p = Some (File data) -> p <> q ->
  lookup (tree (step s q)) p = Some (File data).
Proof.
  intros Hp Hne. unfold rewrite_one, replace_in_file.
  destruct (selected cwd script_path (tree s) q); [|exact Hp].
  destruct (lookup (tree s) q) as [[dq|es]|] eqn:Hq; try exact Hp.
  destruct (read_text dq); [|exact Hp].
  cbn [tree]. rewrite (write_text_update _ _ _ _ Hq).
  now apply lookup_file_update_other with (dq := dq).
Qed.

Lemma step_same (s : state) (p : path) (data : string) :
  lookup (tree s) p = Some (File data) ->
  lookup (tree (step s p)) p
  = Some (File (if eligible cwd script_path p then rewritten repl data else data)).
Proof.
  intros Hp. unfold rewrite_one, selected, is_file, eligible. rewrite Hp. cbn [andb].
  destruct (negb (has_part ".git" (cwd ++ p)) && negb (has_part ".github" (cwd ++ p))
            && negb (path_eqb (cwd ++ p) script_path)); [|exact Hp].
  unfold replace_in_file, rewritten. rewrite Hp.
  destruct (read_text data); [|exact Hp].
  cbn [tree]. rewrite (write_text_update _ _ _ _ Hp).
  now apply lookup_update with (a := File data).
Qed.

Lemma step_shape (s : state) (q : path) : shape (tree (step s q)) = shape (tree s).
Proof.
  unfold rewrite_one, replace_in_file.
  destruct (selected cwd script_path (tree s) q); [|reflexivity].
  destruct (lookup (tree s) q) as [[dq|es]|] eqn:Hq; try reflexivity.
  destruct (read_text dq); [|reflexivity].
  cbn [tree]. rewrite (write_text_update _ _ _ _ Hq).
  now apply shape_update_file with (dq := dq).
Qed.

Lemma step_out (s : state) (q : path) (e : event) :
  In e (out s) -> In e (out (step s q)).
Proof.
  intros H. unfold rewrite_one, replace_in_file, print.
  destruct (selected cwd script_path (tree s) q); [|exact H].
  destruct (lookup (tree s) q) as [[dq|es]|]; [destruct (read_text dq)| |];
    cbn [out]; apply in_or_app; now left.
Qed.

Lemma fold_out (ps : list path) (s : state) (e : event) :
  In e (out s) -> In e (out (fold_left step ps s)).
Proof.
  revert s. induction ps as [|q ps IH]; intros s H; [exact H|].
  cbn [fold_left]. apply IH. now apply step_out.
Qed.

Lemma fold_shape (ps : list path) (s : state) :
  shape (tree (fold_left step ps s)) = shape (tree s).
Proof.
  revert s. induction ps as [|q ps IH]; intros s; [reflexivity|].
  cbn [fold_left]. rewrite IH. apply step_shape.
Qed.

(** The contents of a file once the loop has run over the paths [ps]. *)
Lemma fold_content (ps : list path) : forall s p data,
  NoDup ps -> lookup (tree s) p = Some (File data) ->
  lookup (tree (fold_left step ps s)) p
  = Some (File (if existsb (path_eqb p) ps && eligible cwd script_path p
                then rewritten repl data else data)).
Proof.
  induction ps as [|q ps IH]; intros s p data Hnd Hp; [exact Hp|].
  inversion Hnd as [|? ? Hq Hnd']; subst.
  cbn [fold_left existsb].
  destruct (path_eqb p q) eqn:E.
  - apply path_eqb_eq in E. subst q. cbn [orb].
    rewrite (IH _ _ _ Hnd' (step_same s p data Hp)).
    assert (Hex : existsb (path_eqb p) ps = false).
    { apply not_true_is_false. intros Hex. apply existsb_exists in Hex as (r & Hr & Er).
      apply path_eqb_eq in Er. now subst r. }
    rewrite Hex. cbn [andb]. reflexivity.
  - cbn [orb]. apply IH; [exact Hnd'|].
    apply step_other; [exact Hp|]. intros ->. now rewrite path_eqb_refl in E.
Qed.

(** An undecodable file that the loop reaches is reported. *)
Lemma fold_skip_notice (ps : list path) : forall s p data,
  NoDup ps -> In p ps -> lookup (tree s) p = Some (File data) ->
  eligible cwd script_path p = true -> read_text data = None ->
  In (SkippingBinary (cwd ++ p)) (out (fold_left step ps s)).
Proof.
  induction ps as [|q ps IH]; intros s p data Hnd Hin Hp He Hr; [contradiction|].
  inversion Hnd as [|? ? Hq Hnd']; subst. cbn [fold_left].
  destruct (list_eq_dec string_dec q p) as [->|Hne].
  - apply fold_out. unfold rewrite_one, selected, is_file. rewrite Hp. cbn [andb].
    unfold eligible in He. rewrite He.
    unfold replace_in_file. rewrite Hp, Hr. unfold print. cbn [out].
    apply in_or_app. right. now left.
  - destruct Hin as [->|Hin]; [congruence|].
    apply IH with (data := data); auto.
    apply step_other; [exact Hp | congruence].
Qed.

End ContentStage.

(** ** The paths listed by [rglob] *)

Section Rglob.
Import Entries EntriesFacts.

Local Abbreviation singletons es := (map (fun e : string * node => [fst e]) es).
Local Abbreviation below es :=
  (flat_map (fun e : string * node =>
               match e with (x, c) => map (cons x) (rglob c) end) es).

Lemma in_singletons (es : entries) (q : path) :
  In q (singletons es) <-> exists x, q = [x] /\ In x (names es).
Proof.
  split.
  - intros H. apply in_map_iff in H as ([x c] & <- & Hin). exists x.
    split; [reflexivity|]. apply in_map_iff. now exists (x, c).
  - intros (x & -> & H). apply in_map_iff in H as ([y c] & <- & Hin).
    apply in_map_iff. now exists (y, c).
Qed.

Lemma rglob_nonempty (t : node) : ~ In [] (rglob t).
Proof.
  destruct t as [data|es]; cbn [rglob In]; [tauto|].
  intros H. apply in_app_or in H as [H|H].
  - apply in_singletons in H as (x & E & _). discriminate.
  - apply in_flat_map in H as ([x c] & _ & H).
    apply in_map_iff in H as (q & E & _). discriminate.
Qed.

Lemma in_below (es : entries) (q : path) :
  In q (below es) ->
  exists x r, q = x :: r /\ r <> [] /\ In x (names es).
Proof.
  intros H. apply in_flat_map in H as ([x c] & Hin & H).
  apply in_map_iff in H as (r & <- & Hr). exists x, r.
  split; [reflexivity|]. split.
  - intros ->. now apply rglob_nonempty in Hr.
  - apply in_map_iff. now exists (x, c).
Qed.

Lemma rglob_head (es : entries) (x : string) (q : path) :
  In (x :: q) (rglob (Dir es)) -> In x (names es).
Proof.
  cbn [rglob]. intros H. apply in_app_or in H as [H|H].
  - apply in_singletons in H as (y & E & Hy). congruence.
  - apply in_below in H as (y & r & E & _ & Hy). congruence.
Qed.

Lemma rglob_complete (p : path) : forall t n,
  p <> [] -> lookup t p = Some n -> In p (rglob t).
Proof.
  induction p as [|x p IH]; intros t n Hne Hl; [congruence|].
  cbn in Hl. destruct t as [|es]; [discriminate|].
  destruct (get x es) as [c|] eqn:E; [|discriminate].
  cbn [rglob]. apply in_or_app.
  destruct p as [|y p].
  - left. apply in_map_iff. exists (x, c). split; [reflexivity|].
    now apply get_some_in.
  - right. apply in_flat_map. exists (x, c). split; [now apply get_some_in|].
    apply in_map. apply IH with (n := n); [discriminate | exact Hl].
Qed.

Lemma NoDup_map_cons (x : string) (l : list path) :
  NoDup l -> NoDup (map (cons x) l).
Proof.
  induction 1 as [|q l Hq Hnd IH]; cbn; constructor; [|exact IH].
  intros H. apply in_map_iff in H as (r & E & Hr). injection E as ->. contradiction.
Qed.

Lemma NoDup_singletons (es : entries) :
  NoDup (names es) -> NoDup (singletons es).
Proof.
  induction es as [|[x c] es IH]; cbn [names map fst]; intros Hd; [constructor|].
  inversion Hd as [|? ? Hx Hd']; subst. constructor; [|now apply IH].
  intros H. apply in_singletons in H as (y & E & Hy).
  cbn [fst] in E. injection E as <-. contradiction.
Qed.

Lemma rglob_NoDup (t : node) : well_formed t = true -> NoDup (rglob t).
Proof.
  induction t as [data|es IH] using node_induction; intros Hwf; [constructor|].
  cbn [well_formed] in Hwf. apply andb_true_iff in Hwf as [Hd Hkids].
  apply distinct_NoDup in Hd.
  cbn [rglob]. apply NoDup_app.
  - now apply NoDup_singletons.
  - induction es as [|[x c] es IHes]; [constructor|].
    inversion IH as [|? ? IHc IH']; subst. cbn [snd] in IHc.
    cbn [forallb snd] in Hkids. apply andb_true_iff in Hkids as [Hc Hkids].
    cbn [names map fst] in Hd. inversion Hd as [|? ? Hx Hd']; subst.
    cbn [flat_map]. apply NoDup_app.
    + apply NoDup_map_cons. now apply IHc.
    + now apply IHes.
    + intros q Hq1 Hq2. apply Hx.
      apply in_map_iff in Hq1 as (r & <- & _).
      apply in_below in Hq2 as (y & r' & E & _ & Hy).
      injection E as -> _. exact Hy.
  - intros q Hq1 Hq2.
    apply in_singletons in Hq1 as (x & -> & _).
    apply in_below in Hq2 as (y & r & E & Hr & _). congruence.
Qed.

End Rglob.

(** What step 1 leaves in a file. *)
Lemma rewrite_contents_file (cwd script_path : path) (repl : mapping)
  (st : state) (p : path) (data : string) :
  well_formed (tree st) = true -> is_dir (tree st) = true ->
  lookup (tree st) p = Some (File data) ->
  lookup (tree (rewrite_contents cwd script_path repl st)) p
  = Some (File (if eligible cwd script_path p then rewritten repl data else data)).
Proof.
  intros Hwf Hdir Hp. unfold rewrite_contents.
  rewrite fold_content with (data := data); [|now apply rglob_NoDup|exact Hp].
  assert (Hin : existsb (path_eqb p) (rglob (tree st)) = true).
  { apply existsb_exists. exists p. split; [|apply path_eqb_refl].
    apply rglob_complete with (n := File data); [|exact Hp].
    intros ->. cbn in Hp. injection Hp as E. rewrite E in Hdir. discriminate. }
  now rewrite Hin.
Qed.

Lemma rewrite_contents_shape (cwd script_path : path) (repl : mapping) (st : state) :
  shape (tree (rewrite_contents cwd script_path repl st)) = shape (tree st).
Proof.
  unfold rewrite_contents.
  now rewrite fold_shape.
Qed.

(** ** Shapes, names and the renamed tree *)

Section Shapes.
Import Entries EntriesFacts TreeFacts.

Lemma forallb_map (A B : Type) (f : B -> bool) (g : A -> B) (l : list A) :
  forallb f (map g l) = forallb (fun a => f (g a)) l.
Proof. induction l as [|a l IH]; cbn; [reflexivity | now rewrite IH]. Qed.

Lemma forallb_ext_Forall (A : Type) (f g : A -> bool) (l : list A) :
  Forall (fun a => f a = g a) l -> forallb f l = forallb g l.
Proof. induction 1 as [|a l E _ IH]; cbn; [reflexivity | now rewrite E, IH]. Qed.

Lemma names_shape (es : entries) :
  names (map (fun e => (fst e, shape (snd e))) es) = names es.
Proof. unfold names. rewrite map_map. reflexivity. Qed.

Lemma rename_safe_shape (repl : mapping) (t : node) :
  rename_safe repl (shape t) = rename_safe repl t.
Proof.
  induction t as [data|es IH] using node_induction; [reflexivity|].
  cbn [shape rename_safe]. rewrite names_shape, forallb_map. f_equal.
  apply forallb_ext_Forall. exact IH.
Qed.

Lemma well_formed_shape (t : node) : well_formed (shape t) = well_formed t.
Proof.
  induction t as [data|es IH] using node_induction; [reflexivity|].
  cbn [shape well_formed]. rewrite names_shape, forallb_map. f_equal.
  apply forallb_ext_Forall. exact IH.
Qed.

Lemma all_names_shape (P : string -> bool) (t : node) :
  all_names P (shape t) = all_names P t.
Proof.
  induction t as [data|es IH] using node_induction; [reflexivity|].
  cbn [shape all_names]. rewrite forallb_map.
  apply forallb_ext_Forall. cbn [fst snd].
  eapply Forall_impl; [|exact IH]. intros e E. cbn beta in E. now rewrite E.
Qed.

Lemma height_shape (t : node) : height (shape t) = height t.
Proof.
  induction t as [data|es IH] using node_induction; [reflexivity|].
  cbn [shape height]. f_equal.
  induction IH as [|e es E _ IHes]; cbn; [reflexivity|].
  now rewrite E, IHes.
Qed.

Lemma get_shape (x : string) (es : entries) :
  get x (map (fun e => (fst e, shape (snd e))) es) = option_map shape (get x es).
Proof.
  induction es as [|[y c] es IH]; cbn; [reflexivity|].
  now destruct (String.eqb x y).
Qed.

Lemma lookup_shape (p : path) : forall t,
  lookup (shape t) p = option_map shape (lookup t p).
Proof.
  induction p as [|x p IH]; intros t; [reflexivity|].
  destruct t as [data|es]; [reflexivity|].
  cbn [shape lookup]. rewrite get_shape.
  destruct (get x es) as [c|]; [apply IH | reflexivity].
Qed.

Lemma is_file_shape (t : node) (p : path) : is_file (shape t) p = is_file t p.
Proof.
  unfold is_file. rewrite lookup_shape.
  now destruct (lookup t p) as [[d|es]|].
Qed.

Lemma is_dir_shape (t : node) : is_dir (shape t) = is_dir t.
Proof. now destruct t. Qed.

Lemma rename_safe_well_formed (repl : mapping) (t : node) :
  rename_safe repl t = true -> well_formed t = true.
Proof.
  induction t as [data|es IH] using node_induction; [reflexivity|].
  cbn [rename_safe well_formed]. intros H. apply andb_true_iff in H as [Hn Hk].
  apply andb_true_iff. split.
  - apply distinct_NoDup. now apply safe_names_NoDup with (repl := repl).
  - rewrite forallb_forall in *. rewrite Forall_forall in IH.
    intros e He. apply IH; [exact He | now apply Hk].
Qed.

End Shapes.

Section RenamedTree.
Import Entries EntriesFacts TreeFacts.

Variable repl : mapping.
Local Abbreviation new := (new_name repl).

Lemma get_renamed_entry (x : string) (c : node) (es : entries) :
  (forall y, In y (names es) -> new y = new x -> y = x) ->
  get x es = Some c ->
  get (new x)
      (map (fun e => match e with (y, k) => (new y, rename_tree repl k) end) es)
  = Some (rename_tree repl c).
Proof.
  induction es as [|[y k] es IH]; intros Hinj Hg; [discriminate|].
  cbn [get] in Hg. cbn [map get].
  destruct (String.eqb x y) eqn:E.
  - apply String.eqb_eq in E. subst y. injection Hg as ->.
    now rewrite String.eqb_refl.
  - apply String.eqb_neq in E.
    destruct (String.eqb (new x) (new y)) eqn:En.
    + apply String.eqb_eq in En. exfalso. apply E. symmetry.
      apply Hinj; [now left | now symmetry].
    + apply IH; [|exact Hg]. intros z Hz. apply Hinj. now right.
Qed.

Lemma rename_safe_child (x : string) (c : node) (es : entries) :
  rename_safe repl (Dir es) = true -> get x es = Some c ->
  rename_safe repl c = true.
Proof.
  cbn [rename_safe]. intros H Hg. apply andb_true_iff in H as [_ Hk].
  rewrite forallb_forall in Hk. apply (Hk (x, c)). now apply get_some_in.
Qed.

Lemma get_in_names (x : string) (c : node) (es : entries) :
  get x es = Some c -> In x (names es).
Proof.
  intros H. apply get_some_in in H. apply in_map_iff. now exists (x, c).
Qed.

(** An entry of the tree is found in the renamed tree under its new path. *)
Lemma lookup_rename_tree (p : path) : forall t n,
  rename_safe repl t = true -> lookup t p = Some n ->
  lookup (rename_tree repl t) (map new p) = Some (rename_tree repl n).
Proof.
  induction p as [|x p IH]; intros t n Hs Hl.
  - cbn in *. now injection Hl as ->.
  - cbn [lookup] in Hl. destruct t as [|es]; [discriminate|].
    destruct (get x es) as [c|] eqn:E; [|discriminate].
    cbn [map rename_tree lookup].
    rewrite get_renamed_entry with (c := c); [|  | exact E].
    + apply IH; [|exact Hl]. now apply rename_safe_child with (x := x) (es := es).
    + intros y Hy En. cbn [rename_safe] in Hs. apply andb_true_iff in Hs as [Hn _].
      apply (safe_injective repl es Hn); [exact Hy | | exact En].
      now apply get_in_names with (c := c).
Qed.

(** Distinct entries stay distinct. *)
Lemma map_new_injective (p : path) : forall t q,
  rename_safe repl t = true ->
  lookup t p <> None -> lookup t q <> None -> map new p = map new q -> p = q.
Proof.
  induction p as [|x p IH]; intros t q Hs Hp Hq E.
  - destruct q; [reflexivity | discriminate].
  - destruct q as [|y q]; [discriminate|].
    cbn [map] in E. injection E as Exy Epq.
    cbn [lookup] in Hp, Hq. destruct t as [|es]; [congruence|].
    destruct (get x es) as [c|] eqn:Ex; [|congruence].
    destruct (get y es) as [d|] eqn:Ey; [|congruence].
    assert (x = y) as ->.
    { pose proof Hs as Hs'. cbn [rename_safe] in Hs'.
      apply andb_true_iff in Hs' as [Hn _].
      apply (safe_injective repl es Hn); [| | exact Exy].
      - now apply get_in_names with (c := c).
      - now apply get_in_names with (c := d). }
    rewrite Ex in Ey. injection Ey as <-.
    f_equal. apply IH with (t := c); auto.
    now apply rename_safe_child with (x := y) (es := es).
Qed.

Lemma all_names_rename_tree (P : string -> bool) (t : node) :
  all_names P (rename_tree repl t) = all_names (fun x => P (new x)) t.
Proof.
  induction t as [data|es IH] using node_induction; [reflexivity|].
  cbn [rename_tree all_names]. rewrite forallb_map.
  apply forallb_ext_Forall.
  eapply Forall_impl; [|exact IH]. intros [x c] E. cbn [fst snd] in *. now rewrite E.
Qed.

Lemma all_names_lookup (P : string -> bool) (q : path) : forall t n,
  all_names P t = true -> lookup t q = Some n ->
  forallb P q = true /\ all_names P n = true.
Proof.
  induction q as [|x q IH]; intros t n Ha Hl.
  - cbn in *. injection Hl as ->. now split.
  - cbn [lookup] in Hl. destruct t as [|es]; [discriminate|].
    destruct (get x es) as [c|] eqn:E; [|discriminate].
    cbn [all_names] in Ha. rewrite forallb_forall in Ha.
    specialize (Ha (x, c) (get_some_in _ _ _ E)). cbn [fst snd] in Ha.
    apply andb_true_iff in Ha as [Hx Hc].
    destruct (IH c n Hc Hl) as [Hq Hn]. split; [|exact Hn].
    cbn [forallb]. now rewrite Hx, Hq.
Qed.

Lemma all_names_weaken (P Q : string -> bool) (t : node) :
  (forall x, P x = true -> Q x = true) ->
  all_names P t = true -> all_names Q t = true.
Proof.
  intros HPQ. induction t as [data|es IH] using node_induction; [reflexivity|].
  cbn [all_names]. rewrite !forallb_forall. rewrite Forall_forall in IH.
  intros H e He. specialize (H e He). apply andb_true_iff in H as [Hx Hc].
  apply andb_true_iff. split; [now apply HPQ | now apply IH].
Qed.

Lemma forallb_set (F : string * node -> bool) (x : string) (n : node) (es : entries) :
  forallb F es = true -> F (x, n) = true -> forallb F (set x n es) = true.
Proof.
  intros H Hn. induction es as [|[y k] es IH]; cbn.
  - now rewrite Hn.
  - cbn in H. apply andb_true_iff in H as [Hy Hes].
    destruct (String.eqb x y) eqn:E; cbn.
    + apply String.eqb_eq in E. subst y. now rewrite Hn, Hes.
    + now rewrite Hy, IH.
Qed.

Lemma forallb_remove (F : string * node -> bool) (a : string) (es : entries) :
  forallb F es = true -> forallb F (remove a es) = true.
Proof.
  induction es as [|[y k] es IH]; cbn; [reflexivity|].
  intros H. apply andb_true_iff in H as [Hy Hes].
  destruct (String.eqb a y); cbn; [now apply IH | now rewrite Hy, IH].
Qed.

Lemma all_names_update (P : string -> bool) (p : path) : forall t n,
  all_names P t = true -> all_names P n = true ->
  all_names P (update t p n) = true.
Proof.
  induction p as [|x p IH]; intros t n Ht Hn; [exact Hn|].
  cbn [update]. destruct t as [|es]; [exact Ht|].
  destruct (get x es) as [c|] eqn:E; [|exact Ht].
  cbn [all_names] in *. apply forallb_set; [exact Ht|].
  cbn [fst snd]. rewrite forallb_forall in Ht.
  specialize (Ht (x, c) (get_some_in _ _ _ E)). cbn [fst snd] in Ht.
  apply andb_true_iff in Ht as [Hx Hc]. rewrite Hx. cbn [andb].
  now apply IH.
Qed.

End RenamedTree.

(** ** The replacement mapping of [main] *)

Lemma value_of_title (args : Cli.Args) (year : nat) :
  value_of "${package_title}" (replacements_of args year)
  = value_of "${import_name}" (replacements_of args year).
Proof. reflexivity. Qed.

(** C9: the values stored for the title token and for the import-name token
    are one and the same, the package name with every hyphen turned into an
    underscore. *)
Theorem package_title_is_import_name (args : Cli.Args) (year : nat) :
  value_of "${package_title}" (replacements_of args year)
  = Some (map_chars hyphen_to_underscore (Cli.name args))
  /\ value_of "${import_name}" (replacements_of args year)
     = Some (map_chars hyphen_to_underscore (Cli.name args)).
Proof.
  assert (E : replace (Cli.name args) "-" "_"
              = map_chars hyphen_to_underscore (Cli.name args))
    by apply replace_char.
  split; cbn -[replace map_chars]; now rewrite E.
Qed.

(** ** The GitHub handle *)



(** ** One pass cuts the text and joins the pieces *)

Section Pieces.

Lemma pieces_from_nonempty (k : string) (s : string) : forall skip,
  pieces_from k skip s <> [].
Proof.
  induction s as [|c s IH]; intros skip; cbn [pieces_from]; [discriminate|].
  destruct skip as [|n]; [|apply IH].
  destruct (starts_with k (String c s)); [discriminate|].
  destruct (pieces_from k 0 s); discriminate.
Qed.

Lemma join_cons (sep h : string) (l : list string) :
  l <> [] -> join sep (h :: l) = (h ++ sep ++ join sep l)%string.
Proof. destruct l; [congruence | reflexivity]. Qed.

Lemma join_head (sep : string) (c : ascii) (h : string) (t : list string) :
  join sep (String c h :: t) = String c (join sep (h :: t)).
Proof. destruct t; reflexivity. Qed.

(** What a scan writes is the pieces of the text with the new string put
    between them: the new string is written, never read. *)
Lemma replace_from_join (k v : string) (s : string) : forall skip,
  replace_from k v skip s = join v (pieces_from k skip s).
Proof.
  induction s as [|c s IH]; intros skip; [reflexivity|].
  cbn [replace_from pieces_from]. destruct skip as [|n]; [|apply IH].
  destruct (starts_with k (String c s)).
  - rewrite join_cons by apply pieces_from_nonempty. cbn [append]. now rewrite IH.
  - rewrite IH. destruct (pieces_from k 0 s) as [|h t] eqn:E.
    + now apply pieces_from_nonempty in E.
    + now rewrite join_head.
Qed.

Lemma pieces_from_skip (k u rest : string) :
  pieces_from k (String.length u) (u ++ rest) = pieces_from k 0 rest.
Proof.
  induction u as [|c u IH]; simpl; [reflexivity | exact IH].
Qed.

Lemma pieces_hit (a : ascii) (k' rest : string) :
  pieces (String a k') (String a k' ++ rest) = EmptyString :: pieces (String a k') rest.
Proof.
  unfold pieces.
  change (String a k' ++ rest)%string with (String a (k' ++ rest)).
  cbn [pieces_from].
  change (String a (k' ++ rest)) with (String a k' ++ rest)%string.
  rewrite starts_with_app.
  cbn [String.length]. rewrite Nat.sub_1_r. cbn [Nat.pred].
  now rewrite pieces_from_skip.
Qed.

Lemma pieces_miss (k : string) (c : ascii) (s : string) :
  starts_with k (String c s) = false ->
  exists h t, pieces k s = h :: t /\ pieces k (String c s) = String c h :: t.
Proof.
  intros H. unfold pieces. cbn [pieces_from]. rewrite H.
  destruct (pieces_from k 0 s) as [|h t] eqn:E.
  - now apply pieces_from_nonempty in E.
  - now exists h, t.
Qed.

Lemma length_of_app (u v : string) :
  String.length (u ++ v) = String.length u + String.length v.
Proof. induction u as [|c u IH]; simpl; [reflexivity | now rewrite IH]. Qed.

(** The pieces are those of the text: joined by the key they give it back. *)
Lemma join_pieces (k : string) (s : string) :
  k <> EmptyString -> join k (pieces k s) = s.
Proof.
  intros Hk. remember (String.length s) as n eqn:En.
  revert s En. induction n as [n IH] using lt_wf_ind. intros s En.
  destruct s as [|c s]; [reflexivity|].
  destruct (starts_with k (String c s)) eqn:Hs.
  - apply starts_with_split in Hs as [rest E]. rewrite E.
    destruct k as [|a k']; [congruence|].
    rewrite pieces_hit.
    rewrite join_cons by apply pieces_from_nonempty. cbn [append].
    rewrite (IH (String.length rest)); [reflexivity | | reflexivity].
    subst n. rewrite E, length_of_app. cbn [String.length]. lia.
  - destruct (pieces_miss k c s Hs) as (h & t & E1 & E2).
    rewrite E2, join_head, <- E1.
    rewrite (IH (String.length s)); [reflexivity | | reflexivity].
    subst n. cbn [String.length]. lia.
Qed.

Lemma starts_with_prefix (k p r : string) :
  starts_with k p = true -> starts_with k (p ++ r) = true.
Proof.
  intros H. apply starts_with_split in H as [r0 ->].
  rewrite append_assoc. apply starts_with_app.
Qed.

Lemma join_begins (sep h : string) (t : list string) :
  exists r, join sep (h :: t) = (h ++ r)%string.
Proof.
  destruct t as [|h' t].
  - exists EmptyString. cbn [join]. now rewrite append_empty_r.
  - now exists (sep ++ join sep (h' :: t))%string.
Qed.

(** The key occurs in none of the pieces. *)
Lemma pieces_clean (k : string) (s : string) :
  k <> EmptyString ->
  forallb (fun p => negb (occurs k p)) (pieces k s) = true.
Proof.
  intros Hk. remember (String.length s) as n eqn:En.
  revert s En. induction n as [n IH] using lt_wf_ind. intros s En.
  assert (Hempty : occurs k EmptyString = false).
  { destruct k; [congruence | reflexivity]. }
  destruct s as [|c s].
  - cbn [pieces pieces_from forallb]. now rewrite Hempty.
  - destruct (starts_with k (String c s)) eqn:Hs.
    + apply starts_with_split in Hs as [rest E]. rewrite E.
      destruct k as [|a k']; [congruence|].
      rewrite pieces_hit. cbn [forallb]. rewrite Hempty. cbn [negb andb].
      apply (IH (String.length rest)); [|reflexivity].
      subst n. rewrite E, length_of_app. cbn [String.length]. lia.
    + destruct (pieces_miss k c s Hs) as (h & t & E1 & E2).
      assert (Hrec : forallb (fun p => negb (occurs k p)) (pieces k s) = true).
      { apply (IH (String.length s)); [|reflexivity].
        subst n. cbn [String.length]. lia. }
      rewrite E2. rewrite E1 in Hrec. cbn [forallb] in Hrec |- *.
      apply andb_true_iff in Hrec as [Hh Ht]. rewrite Ht, andb_true_r.
      apply negb_true_iff in Hh. apply negb_true_iff.
      cbn [occurs]. rewrite Hh, orb_false_r.
      destruct (starts_with k (String c h)) eqn:Hc; [|reflexivity].
      destruct (join_begins k h t) as [r Er].
      rewrite <- E1, join_pieces in Er by exact Hk.
      apply starts_with_prefix with (r := r) in Hc.
      cbn [append] in Hc. rewrite <- Er in Hc. congruence.
Qed.

(** [s.replace(k, v)] is [v.join(s.split(k))], for every text and every
    value. *)
Lemma replace_join (s k v : string) :
  k <> EmptyString -> replace s k v = join v (pieces k s).
Proof.
  destruct k as [|a k']; [congruence|]. intros _.
  unfold replace, pieces. apply replace_from_join.
Qed.

Lemma key_of_main_nonempty (args : Cli.Args) (year : nat)
  (earlier later : mapping) (k v : string) :
  replacements_of args year = earlier ++ (k, v) :: later -> k <> EmptyString.
Proof.
  intros H.
  assert (Hin : In k (keys (replacements_of args year))).
  { rewrite H. unfold keys. rewrite map_app. apply in_or_app. right. now left. }
  change (keys (replacements_of args year)) with tokens in Hin.
  unfold tokens in Hin. cbn [In] in Hin.
  intros ->. repeat (destruct Hin as [Hin|Hin]; [discriminate|]). exact Hin.
Qed.

End Pieces.

(** ** Values that hold tokens *)

(** C2, as stated, fails: an author value holding the email token is
    substituted again, by the pass of the email token. *)
Lemma value_rescanned_counterexample :
  apply_replacements (replacements_of Sample.args_author_email 2026) "by ${author}"
  = "by a@b.com"
  /\ apply_replacements (replacements_of Sample.args_author_email 2026) "by ${author}"
     <> ("by " ++ Cli.author Sample.args_author_email)%string
  /\ tree (replace_in_file [] ["README.md"]
             (replacements_of Sample.args_author_email 2026) Sample.readme_author)
     = Dir [("README.md", File "by a@b.com")]
  /\ occurs "${email}" (Cli.author Sample.args_author_email) = true.
Proof.
  split; [reflexivity|]. split; [vm_compute; discriminate|].
  split; reflexivity.
Qed.

(** C2, amended: the pass of one token cuts the text, as it stands before
    the pass, at the occurrences of the token and writes the pieces with the
    value between them; the token occurs in no piece and the pieces are the
    same whatever the value, so the pass never scans the value it inserts.
    The text the pass leaves, inserted values included, is scanned by the
    passes of the tokens that come later in the mapping, and by those only;
    in particular a token standing alone becomes its value as rewritten by
    the later passes. *)
Theorem value_scanned_by_later_passes (args : Cli.Args) (year : nat)
  (earlier later : mapping) (k v : string) :
  replacements_of args year = earlier ++ (k, v) :: later ->
  (forall text,
      join k (pieces k text) = text
      /\ forallb (fun p => negb (occurs k p)) (pieces k text) = true
      /\ forall w, replace text k w = join w (pieces k text))
  /\ (forall text,
        apply_replacements (replacements_of args year) text
        = apply_replacements later
            (join v (pieces k (apply_replacements earlier text))))
  /\ apply_replacements (replacements_of args year) k = apply_replacements later v.
Proof.
  intros H.
  assert (Hk : k <> EmptyString) by exact (key_of_main_nonempty _ _ _ _ _ _ H).
  split.
  { intros text. split; [now apply join_pieces|].
    split; [now apply pieces_clean|].
    intros w. now apply replace_join. }
  split.
  { intros text. rewrite H, apply_replacements_app.
    unfold apply_replacements at 1. cbn [fold_left fst snd].
    fold (apply_replacements later). now rewrite replace_join. }
  rewrite H. unfold replacements_of in H.
  do 8 (destruct earlier as [|? earlier];
        [ cbn [app] in H; inversion H; subst; clear H;
          unfold apply_replacements; cbn [fold_left app fst snd];
          repeat (rewrite replace_absent by reflexivity);
          rewrite replace_self by discriminate; reflexivity
        | cbn [app] in H; injection H as <- H ]).
  destruct earlier; discriminate.
Qed.

Lemma value_scanned_by_later_passes_witness :
  replace "by ${author} and ${author}" "${author}" "<${author}>"
  = "by <${author}> and <${author}>"
  /\ pieces "${author}" "by ${author} and ${author}" = ["by "; " and "; ""]
  /\ apply_replacements (replacements_of Sample.args_author_email 2026) "${author}"
     = apply_replacements
         [("${email}", "a@b.com"); ("${description}", "desc");
          ("${github_username}", "a"); ("${year}", "2026")]
         "${email}".
Proof.
  assert (H : replacements_of Sample.args_author_email 2026
              = [("${package_name}", "pkg"); ("${import_name}", "pkg");
                 ("${package_title}", "pkg")]
                ++ ("${author}", "${email}")
                   :: [("${email}", "a@b.com"); ("${description}", "desc");
                       ("${github_username}", "a"); ("${year}", "2026")])
    by reflexivity.
  destruct (value_scanned_by_later_passes Sample.args_author_email 2026 _ _ _ _ H)
    as (Hcut & _ & Halone).
  split; [|split; [reflexivity | exact Halone]].
  exact (proj2 (proj2 (Hcut "by ${author} and ${author}")) "<${author}>").
Defined.

(** ** The rename stage on a whole tree *)

(** C3, as stated, fails: next to a directory that already carries the new
    name, the outer directory keeps its placeholder, and the fully renamed
    path does not come to exist. *)
Lemma rename_ordering_counterexample :
  exists st,
    rename_files_and_dirs 3 Sample.x_mapping
      {| tree := Sample.nested_collision; out := [] |} = Ok st
    /\ tree st <> rename_tree Sample.x_mapping Sample.nested_collision
    /\ path_exists (tree st) ["outer-${x}"; "inner-X"; "file-X"] = true
    /\ path_exists (tree st) ["outer-X"; "inner-X"; "file-X"] = false.
Proof.
  eexists. split; [vm_compute; reflexivity|].
  split; [vm_compute; discriminate|]. split; reflexivity.
Qed.

(** C3, amended: when in every directory the new names are pairwise
    distinct and each name that changes becomes a single path component
    carried by no entry of that directory, the walk ends without any failed
    operation, leaves exactly the tree with every entry renamed, and prints
    the lines of [rename_log]: for every directory those of its
    sub-directories first, then those of its files, then those of its
    directories, so that an entry is renamed only after everything below
    it. *)
Theorem rename_stage_renames_tree (fuel : nat) (repl : mapping) (es : entries)
  (o : list event) :
  rename_safe repl (Dir es) = true ->
  height (Dir es) <= fuel ->
  rename_files_and_dirs fuel repl {| tree := Dir es; out := o |}
  = Ok {| tree := rename_tree repl (Dir es);
          out := o ++ rename_log repl [] (Dir es) |}.
Proof.
  intros Hs Hh. unfold rename_files_and_dirs.
  exact (walk_correct repl fuel [] (Dir es) es o eq_refl Hs Hh).
Qed.

(** On the nested sample the file is renamed first, then the inner
    directory, the outer directory last. *)
Lemma rename_stage_renames_tree_witness :
  rename_files_and_dirs 3 Sample.x_mapping {| tree := Sample.nested; out := [] |}
  = Ok {| tree :=
            Dir [("outer-X", Dir [("inner-X", Dir [("file-X", File "text")])])];
          out :=
            [Renaming ["outer-${x}"; "inner-${x}"] "file-${x}" "file-X";
             RenamingDirectory ["outer-${x}"] "inner-${x}" "inner-X";
             RenamingDirectory [] "outer-${x}" "outer-X"] |}.
Proof.
  apply (rename_stage_renames_tree 3 Sample.x_mapping
           [("outer-${x}",
             Dir [("inner-${x}", Dir [("file-${x}", File "text")])])] []).
  - reflexivity.
  - cbn. lia.
Defined.

(** ** Collisions *)

Section Collisions.
Import Entries EntriesFacts TreeFacts.

Lemma get_rename_target (x b : string) (n : node) (es : entries) :
  get x es = Some n -> x <> b -> get b (rename x b (remove b es)) = Some n.
Proof.
  intros Hg Hxb. induction es as [|[y k] es IH]; [discriminate|].
  cbn [get] in Hg. cbn [remove].
  destruct (String.eqb b y) eqn:Eby.
  - apply String.eqb_eq in Eby. subst y.
    destruct (String.eqb x b) eqn:Exb;
      [apply String.eqb_eq in Exb; congruence | now apply IH].
  - unfold rename. cbn [map fst snd get]. fold (rename x b (remove b es)).
    rewrite (String.eqb_sym y x).
    destruct (String.eqb x y) eqn:Exy.
    + now rewrite String.eqb_refl.
    + rewrite Eby. now apply IH.
Qed.

Lemma get_rename_source (x b : string) (es : entries) :
  x <> b -> get x (rename x b es) = None.
Proof.
  intros Hxb. induction es as [|[y k] es IH]; [reflexivity|].
  unfold rename. cbn [map fst snd get]. fold (rename x b es).
  destruct (String.eqb y x) eqn:Eyx.
  - apply String.eqb_neq in Hxb. now rewrite Hxb.
  - rewrite String.eqb_sym, Eyx. exact IH.
Qed.

Lemma get_remove_same (a : string) (es : entries) : get a (remove a es) = None.
Proof.
  induction es as [|[y k] es IH]; [reflexivity|].
  cbn [remove]. destruct (String.eqb a y) eqn:E; [exact IH|].
  cbn [get]. now rewrite E.
Qed.

Lemma get_remove_other (a y : string) (es : entries) :
  a <> y -> get y (remove a es) = get y es.
Proof.
  intros Hay. induction es as [|[z k] es IH]; [reflexivity|].
  cbn [remove]. destruct (String.eqb a z) eqn:E.
  - apply String.eqb_eq in E. subst z. cbn [get].
    apply String.eqb_neq in Hay. rewrite String.eqb_sym in Hay. now rewrite Hay.
  - cbn [get]. now rewrite IH.
Qed.

Lemma lookup_under_update (root q : path) (t a b : node) :
  lookup t root = Some a ->
  lookup (update t root b) (root ++ q) = lookup b q.
Proof.
  intros H. rewrite lookup_app. now rewrite (lookup_update _ _ _ b H).
Qed.

(** C4: a directory whose destination exists is left where it is, nothing
    is overwritten and nothing is raised; a file is moved without any such
    test, so that an existing file is replaced and an existing directory
    receives the file. *)
Theorem collision_handling_asymmetric (repl : mapping) (root : path)
  (x b : string) (st : state) :
  occurs marker x = true ->
  apply_replacements repl x = b ->
  x <> b ->
  classify b = Child b ->
  (path_exists (tree st) (root ++ [b]) = true ->
   rename_dir repl root x st = Ok (print (RenamingDirectory root x b) st))
  /\ (forall es data data',
         lookup (tree st) root = Some (Dir es) ->
         get x es = Some (File data) ->
         get b es = Some (File data') ->
         exists st',
           rename_file repl root x st = Ok st'
           /\ lookup (tree st') (root ++ [b]) = Some (File data)
           /\ lookup (tree st') (root ++ [x]) = None)
  /\ (forall es data sub,
         lookup (tree st) root = Some (Dir es) ->
         get x es = Some (File data) ->
         get b es = Some (Dir sub) ->
         get x sub = None ->
         exists st',
           rename_file repl root x st = Ok st'
           /\ lookup (tree st') (root ++ [b; x]) = Some (File data)
           /\ lookup (tree st') (root ++ [x]) = None).
Proof.
  intros Hm Hb Hxb Hc.
  assert (Exb : String.eqb x b = false) by now apply String.eqb_neq.
  split; [|split].
  - intros He. unfold rename_dir. rewrite Hm, Hb, Exb, Hc.
    cbn [target_exists bind print tree]. now rewrite He.
  - intros es data data' Hl Hx Hbf.
    unfold rename_file. rewrite Hm, Hb, Exb, Hc.
    unfold on_tree, print. cbn [tree out].
    rewrite (makedirs_present _ _ _ Hl). cbn [bind tree out].
    unfold shutil_move. rewrite (at_dir_update _ _ _ _ Hl).
    unfold move_entry. rewrite Exb, Hbf, Hx. cbn [bind].
    eexists. split; [reflexivity|]. cbn [tree]. split.
    + rewrite (lookup_under_update root [b] _ _ _ Hl). cbn [lookup].
      now rewrite (get_rename_target x b (File data) es Hx Hxb).
    + rewrite (lookup_under_update root [x] _ _ _ Hl). cbn [lookup].
      now rewrite get_rename_source.
  - intros es data sub Hl Hx Hbd Hxs.
    unfold rename_file. rewrite Hm, Hb, Exb, Hc.
    unfold on_tree, print. cbn [tree out].
    rewrite (makedirs_present _ _ _ Hl). cbn [bind tree out].
    unfold shutil_move. rewrite (at_dir_update _ _ _ _ Hl).
    unfold move_entry. rewrite Exb, Hbd, Hxs, Hx. cbn [bind].
    eexists. split; [reflexivity|]. cbn [tree]. split.
    + rewrite (lookup_under_update root [b; x] _ _ _ Hl). cbn [lookup].
      rewrite get_set_same, get_app, Hxs. cbn [get]. now rewrite String.eqb_refl.
    + rewrite (lookup_under_update root [x] _ _ _ Hl). cbn [lookup].
      rewrite get_set_other by congruence. now rewrite get_remove_same.
Qed.

End Collisions.

Lemma collision_handling_witness :
  rename_dir Sample.x_mapping [] "d-${x}" {| tree := Sample.collisions; out := [] |}
  = Ok {| tree := Sample.collisions;
          out := [RenamingDirectory [] "d-${x}" "d-X"] |}
  /\ exists st',
       rename_file Sample.x_mapping [] "${x}.txt"
         {| tree := Sample.collisions; out := [] |} = Ok st'
       /\ lookup (tree st') ([] ++ ["X.txt"]) = Some (File "new")
       /\ lookup (tree st') ([] ++ ["${x}.txt"]) = None.
Proof.
  split.
  - apply (proj1 (collision_handling_asymmetric Sample.x_mapping [] "d-${x}" "d-X"
                    {| tree := Sample.collisions; out := [] |}
                    eq_refl eq_refl ltac:(discriminate) eq_refl)).
    reflexivity.
  - apply (proj1 (proj2 (collision_handling_asymmetric Sample.x_mapping []
                           "${x}.txt" "X.txt"
                           {| tree := Sample.collisions; out := [] |}
                           eq_refl eq_refl ltac:(discriminate) eq_refl))
             [("${x}.txt", File "new"); ("X.txt", File "old");
              ("d-${x}", Dir [("keep", File "k")]); ("d-X", File "taken")]
             "new" "old"); reflexivity.
Defined.

(** ** What each stage leaves out *)

Lemma has_part_app (x : string) (p q : path) :
  has_part x (p ++ q) = has_part x p || has_part x q.
Proof. unfold has_part. apply existsb_app. Qed.

Lemma excluded_not_eligible (cwd script_path p : path) :
  has_part ".git" p = true \/ has_part ".github" p = true
  \/ cwd ++ p = script_path ->
  eligible cwd script_path p = false.
Proof.
  unfold eligible. rewrite !has_part_app. intros [H|[H|H]].
  - rewrite H, orb_true_r. reflexivity.
  - rewrite H, orb_true_r. apply andb_false_iff. left. apply andb_false_iff. now right.
  - apply path_eqb_eq in H. rewrite H. apply andb_false_r.
Qed.

(** C10: the rename stage reaches every entry of the tree: whatever its
    path, an entry ends up under its new name; a file below [.git] or
    [.github], or the tool's own file, is renamed like any other, while
    step 1 leaves the contents of such a file as they are. *)
Theorem rename_stage_has_no_exclusion (fuel : nat) (cwd script_path : path)
  (repl : mapping) (es : entries) (o : list event) (p : path) (n : node) :
  rename_safe repl (Dir es) = true ->
  height (Dir es) <= fuel ->
  lookup (Dir es) p = Some n ->
  (exists st',
      rename_files_and_dirs fuel repl {| tree := Dir es; out := o |} = Ok st'
      /\ lookup (tree st') (map (new_name repl) p) = Some (rename_tree repl n))
  /\ (forall data,
         n = File data ->
         has_part ".git" p = true \/ has_part ".github" p = true
         \/ cwd ++ p = script_path ->
         lookup (tree (rewrite_contents cwd script_path repl
                         {| tree := Dir es; out := o |})) p
         = Some (File data)).
Proof.
  intros Hs Hh Hl. split.
  - pose proof (walk_correct repl fuel [] (Dir es) es o eq_refl Hs Hh) as E.
    eexists. split; [exact E|]. cbn [tree update].
    now apply lookup_rename_tree.
  - intros data -> Hex.
    rewrite rewrite_contents_file with (data := data).
    + now rewrite excluded_not_eligible.
    + now apply rename_safe_well_formed with (repl := repl).
    + reflexivity.
    + exact Hl.
Qed.

Lemma rename_stage_has_no_exclusion_witness :
  (exists st',
      rename_files_and_dirs 3 (replacements_of Sample.args 2026)
        {| tree := Sample.project; out := [] |} = Ok st'
      /\ lookup (tree st') [".git"; "hooks"; "foo-bar.sample"]
         = Some (File "${author}")).
Proof.
  apply (proj1 (rename_stage_has_no_exclusion 3 Sample.cwd Sample.script_path
                  (replacements_of Sample.args 2026)
                  [("README.md",
                    File "Hello ${package_name} by ${author} <${email}>: ${description}");
                   ("${import_name}",
                    Dir [("__init__.py", File "# ${package_title} ${year}")]);
                   ("logo.bin", File (String (ascii_of_nat 255) "${author}"));
                   (".gitignore", File "*.md");
                   (".git",
                    Dir [("hooks", Dir [("${package_name}.sample", File "${author}")])]);
                   (".template", Dir [("init.py", File "r'${package_name}'")])]
                  [] [".git"; "hooks"; "${package_name}.sample"] (File "${author}")
                  eq_refl ltac:(cbn; lia) eq_refl)).
Defined.

(** C6: whether step 1 rewrites a file is settled by three tests alone: it
    is a regular file, no part of its resolved path is [.git] or [.github],
    and it is not the tool's own file.  No ignore pattern enters: with a
    mapping of encodable text, a file that passes the tests holds the
    rewritten text and any other file its old contents; a file that fails a
    test keeps its contents under every mapping; and step 2 renames every
    entry, whatever its path. *)
Theorem rewrite_decision (cwd script_path : path) (repl : mapping) (st : state)
  (p : path) (data : string) :
  well_formed (tree st) = true ->
  is_dir (tree st) = true ->
  lookup (tree st) p = Some (File data) ->
  (encodable repl = true ->
   lookup (tree (rewrite_contents cwd script_path repl st)) p
   = Some (File (if negb (has_part ".git" (cwd ++ p))
                    && negb (has_part ".github" (cwd ++ p))
                    && negb (path_eqb (cwd ++ p) script_path)
                 then rewritten repl data else data)))
  /\ (negb (has_part ".git" (cwd ++ p))
      && negb (has_part ".github" (cwd ++ p))
      && negb (path_eqb (cwd ++ p) script_path) = false ->
      lookup (tree (rewrite_contents cwd script_path repl st)) p
      = Some (File data))
  /\ (forall fuel q n,
         rename_safe repl (tree st) = true ->
         height (tree st) <= fuel ->
         lookup (tree st) q = Some n ->
         exists st',
           rename_files_and_dirs fuel repl st = Ok st'
           /\ lookup (tree st') (map (new_name repl) q)
              = Some (rename_tree repl n)).
Proof.
  intros Hwf Hd Hl.
  pose proof (rewrite_contents_file cwd script_path repl st p data Hwf Hd Hl) as Hc.
  unfold eligible in Hc.
  split; [intros _; exact Hc|]. split; [intros He; now rewrite He in Hc|].
  intros fuel q n Hs Hh Hq. destruct st as [[d|es] o]; [discriminate|].
  cbn [tree] in *.
  pose proof (walk_correct repl fuel [] (Dir es) es o eq_refl Hs Hh) as E.
  eexists. split; [exact E|]. cbn [tree update].
  now apply lookup_rename_tree.
Qed.

(** A file matched by a pattern of the ignore file is rewritten all the
    same. *)
Lemma rewrite_decision_witness :
  lookup (tree (rewrite_contents Sample.cwd Sample.script_path
                  (replacements_of Sample.args 2026)
                  {| tree := Sample.project; out := [] |})) ["README.md"]
  = Some (File "Hello foo-bar by A B <a@b.com>: desc").
Proof.
  apply (proj1 (rewrite_decision Sample.cwd Sample.script_path
                  (replacements_of Sample.args 2026)
                  {| tree := Sample.project; out := [] |} ["README.md"]
                  "Hello ${package_name} by ${author} <${email}>: ${description}"
                  eq_refl eq_refl eq_refl) eq_refl).
Defined.

(** Had the matcher been asked about a file that step 1 rewrites, it would
    not have answered: the second [relative_to] compares a relative path
    with the absolute working directory. *)
Remark is_ignored_never_answers_false
  (fnmatch : string -> string -> bool) (PROJECT_ROOT cwd : path)
  (rel_is_dir : path -> bool) (resolved : path) (patterns : list string) :
  is_ignored fnmatch PROJECT_ROOT cwd rel_is_dir resolved patterns = Ok true
  \/ is_ignored fnmatch PROJECT_ROOT cwd rel_is_dir resolved patterns
     = Raise ValueError.
Proof.
  unfold is_ignored, relative_to. cbn [absolute parts Bool.eqb].
  destruct (strip_prefix PROJECT_ROOT resolved) as [rest|]; [|now right].
  cbn [parts absolute].
  destruct (has_part ".git" rest || has_part ".github" rest); [now left | now right].
Qed.

(** ** Undecodable files *)

(** C8: a file whose bytes are not UTF-8 comes out of step 1 with the same
    bytes, a skip notice is printed for it, the call on it returns, and,
    the mapping being encodable text, every other file is handled as
    usual. *)
Theorem undecodable_file_skipped (cwd script_path : path) (repl : mapping)
  (st : state) (p : path) (data : string) :
  well_formed (tree st) = true ->
  is_dir (tree st) = true ->
  lookup (tree st) p = Some (File data) ->
  Utf8.valid data = false ->
  replace_in_file cwd p repl st = print (SkippingBinary (cwd ++ p)) st
  /\ lookup (tree (rewrite_contents cwd script_path repl st)) p = Some (File data)
  /\ (eligible cwd script_path p = true ->
      In (SkippingBinary (cwd ++ p))
         (out (rewrite_contents cwd script_path repl st)))
  /\ (encodable repl = true ->
      forall q dq,
        lookup (tree st) q = Some (File dq) ->
        lookup (tree (rewrite_contents cwd script_path repl st)) q
        = Some (File (if eligible cwd script_path q
                      then rewritten repl dq else dq))).
Proof.
  intros Hwf Hd Hl Hv.
  assert (Hr : read_text data = None) by (unfold read_text; now rewrite Hv).
  split; [|split; [|split]].
  - unfold replace_in_file. now rewrite Hl, Hr.
  - rewrite rewrite_contents_file with (data := data); auto.
    unfold rewritten. rewrite Hr. now destruct (eligible cwd script_path p).
  - intros He. unfold rewrite_contents.
    apply fold_skip_notice with (data := data); auto.
    + now apply rglob_NoDup.
    + apply rglob_complete with (n := File data); [|exact Hl].
      intros ->. cbn in Hl. injection Hl as E. rewrite E in Hd. discriminate.
  - intros _ q dq Hq. now apply rewrite_contents_file.
Qed.

Lemma undecodable_file_skipped_witness :
  lookup (tree (rewrite_contents Sample.cwd Sample.script_path
                  (replacements_of Sample.args 2026)
                  {| tree := Sample.project; out := [] |})) ["logo.bin"]
  = Some (File (String (ascii_of_nat 255) "${author}"))
  /\ lookup (tree (rewrite_contents Sample.cwd Sample.script_path
                     (replacements_of Sample.args 2026)
                     {| tree := Sample.project; out := [] |})) ["README.md"]
     = Some (File "Hello foo-bar by A B <a@b.com>: desc").
Proof.
  destruct (undecodable_file_skipped Sample.cwd Sample.script_path
              (replacements_of Sample.args 2026)
              {| tree := Sample.project; out := [] |} ["logo.bin"]
              (String (ascii_of_nat 255) "${author}")
              eq_refl eq_refl eq_refl eq_refl) as (_ & Hsame & _ & Hothers).
  split; [exact Hsame|].
  exact (Hothers eq_refl ["README.md"]
           "Hello ${package_name} by ${author} <${email}>: ${description}" eq_refl).
Defined.

(** ** A second pass *)

Lemma universal_newlines_id (s : string) :
  has_char CR s = false -> universal_newlines s = s.
Proof.
  induction s as [|c s IH]; [reflexivity|].
  cbn [has_char universal_newlines]. intros H.
  apply orb_false_iff in H as [Hc Hs].
  rewrite Ascii.eqb_sym, Hc. now rewrite IH.
Qed.

Lemma replace_in_file_content (cwd p : path) (repl : mapping) (st : state)
  (data : string) :
  lookup (tree st) p = Some (File data) ->
  lookup (tree (replace_in_file cwd p repl st)) p
  = Some (File (rewritten repl data)).
Proof.
  intros Hl. unfold replace_in_file, rewritten. rewrite Hl.
  destruct (read_text data); [|exact Hl].
  cbn [tree]. rewrite (write_text_update _ _ _ _ Hl).
  now apply TreeFacts.lookup_update with (a := File data).
Qed.

(** C5, as stated, fails: with an author value that holds the name token, a
    second pass over the rewritten file changes it again. *)
Lemma second_pass_counterexample :
  tree (replace_in_file [] ["README.md"]
          (replacements_of Sample.args_author_name 2026) Sample.readme_author)
  = Dir [("README.md", File "by ${package_name}")]
  /\ tree (replace_in_file [] ["README.md"]
             (replacements_of Sample.args_author_name 2026)
             (replace_in_file [] ["README.md"]
                (replacements_of Sample.args_author_name 2026)
                Sample.readme_author))
     = Dir [("README.md", File "by pkg")]
  /\ tree (replace_in_file [] ["README.md"]
             (replacements_of Sample.args_author_name 2026)
             (replace_in_file [] ["README.md"]
                (replacements_of Sample.args_author_name 2026)
                Sample.readme_author))
     <> tree (replace_in_file [] ["README.md"]
                (replacements_of Sample.args_author_name 2026)
                Sample.readme_author).
Proof.
  split; [reflexivity|]. split; [reflexivity|]. vm_compute. discriminate.
Qed.

(** A value with a carriage return is rewritten by the second pass too. *)
Example second_pass_carriage_return :
  tree (replace_in_file [] ["f"] [("${x}", String "a" (String CR "b"))]
          (replace_in_file [] ["f"] [("${x}", String "a" (String CR "b"))]
             {| tree := Dir [("f", File "${x}")]; out := [] |}))
  <> tree (replace_in_file [] ["f"] [("${x}", String "a" (String CR "b"))]
             {| tree := Dir [("f", File "${x}")]; out := [] |}).
Proof. vm_compute. discriminate. Qed.


(** ** The whole run *)

Section WholeRun.
Import Entries EntriesFacts TreeFacts.

Lemma strip_prefix_app (base : path) : forall p rel,
  strip_prefix base p = Some rel -> p = base ++ rel.
Proof.
  induction base as [|b base IH]; intros p rel; cbn.
  - now intros [= ->].
  - destruct p as [|x p]; [discriminate|].
    destruct (String.eqb b x) eqn:E; [|discriminate].
    apply String.eqb_eq in E. subst x. intros H. now rewrite (IH _ _ H).
Qed.

Lemma all_files_lookup (Q : path -> string -> bool) (p : path) :
  forall here t data,
    all_files Q here t = true -> lookup t p = Some (File data) ->
    Q (here ++ p) data = true.
Proof.
  induction p as [|x p IH]; intros here t data Ha Hl.
  - cbn in Hl. injection Hl as ->. now rewrite app_nil_r.
  - cbn [lookup] in Hl. destruct t as [|es]; [discriminate|].
    destruct (get x es) as [c|] eqn:E; [|discriminate].
    cbn [all_files] in Ha. rewrite forallb_forall in Ha.
    specialize (Ha (x, c) (get_some_in _ _ _ E)). cbn [fst snd] in Ha.
    specialize (IH (here ++ [x]) c data Ha Hl).
    now rewrite <- app_assoc in IH.
Qed.

(** Removing a file leaves the other files where they are. *)
Lemma lookup_after_remove (root : path) (a : string) : forall t q er sd d,
  lookup t root = Some (Dir er) -> get a er = Some (File sd) ->
  lookup t q = Some (File d) -> q <> root ++ [a] ->
  lookup (update t root (Dir (remove a er))) q = Some (File d).
Proof.
  induction root as [|x root IH]; intros t q er sd d Hr Ha Hq Hne.
  - cbn in Hr. injection Hr as ->. cbn [update].
    destruct q as [|y q]; [discriminate|].
    cbn [lookup] in *.
    destruct (string_dec a y) as [<-|Hay].
    + rewrite Ha in Hq. destruct q; [cbn in Hne; congruence | discriminate].
    + now rewrite get_remove_other.
  - cbn [lookup] in Hr. destruct t as [|es]; [discriminate|].
    destruct (get x es) as [c|] eqn:E; [|discriminate].
    destruct q as [|y q]; [discriminate|].
    cbn [update]. rewrite E. cbn [lookup] in *.
    destruct (string_dec x y) as [->|Hxy].
    + rewrite get_set_same. rewrite E in Hq.
      apply IH with (sd := sd); auto. cbn in Hne. congruence.
    + now rewrite get_set_other.
Qed.

Lemma plain_value_map_chars (s : string) :
  plain_value s = true -> plain_value (map_chars hyphen_to_underscore s) = true.
Proof.
  assert (Hd : forall c, Ascii.eqb "$" (hyphen_to_underscore c) = Ascii.eqb "$" c).
  { intros c. unfold hyphen_to_underscore.
    destruct (Ascii.eqb c "-") eqn:E; [|reflexivity].
    apply Ascii.eqb_eq in E. now subst c. }
  assert (Hall : forall u, has_char "$" (map_chars hyphen_to_underscore u)
                           = has_char "$" u).
  { induction u as [|c u IH]; [reflexivity|].
    cbn [map_chars has_char]. now rewrite Hd, IH. }
  destruct s as [|c s]; [discriminate|].
  unfold plain_value. rewrite (Hall (String c s)).
  cbn [map_chars]. intros H. apply andb_true_iff in H as [Hc Hs].
  rewrite Hs, andb_true_r. unfold hyphen_to_underscore.
  destruct (Ascii.eqb c "-") eqn:E; [reflexivity | exact Hc].
Qed.

Lemma digits_plain (d : Decimal.uint) :
  d <> Decimal.Nil -> plain_value (NilEmpty.string_of_uint d) = true.
Proof.
  assert (Hall : forall u, has_char "$" (NilEmpty.string_of_uint u) = false).
  { induction u; cbn [NilEmpty.string_of_uint has_char]; try reflexivity;
      rewrite IHu; reflexivity. }
  intros Hne. destruct d; [congruence | ..];
    unfold plain_value; rewrite Hall; reflexivity.
Qed.

Lemma plain_value_year (year : nat) : plain_value (str_of_nat year) = true.
Proof.
  unfold str_of_nat. apply digits_plain.
  rewrite <- (DecimalNat.Unsigned.of_to year) at 1.
  rewrite DecimalNat.Unsigned.to_of. unfold Decimal.unorm.
  destruct (Decimal.nzhead (Nat.to_uint year)); discriminate.
Qed.

Lemma plain_replacements (args : Cli.Args) (year : nat) :
  forallb plain_value
    [Cli.name args; Cli.author args; Cli.email args; Cli.description args;
     Cli.github args] = true ->
  forallb plain_value (map snd (replacements_of args year)) = true.
Proof.
  cbn [forallb]. rewrite !andb_true_r. intros H.
  apply andb_true_iff in H as [Hn H]. apply andb_true_iff in H as [Ha H].
  apply andb_true_iff in H as [He H]. apply andb_true_iff in H as [Hd Hg].
  unfold replacements_of. cbn [map snd forallb].
  rewrite replace_char. fold hyphen_to_underscore.
  change (fun c => if Ascii.eqb c "-" then "_"%char else c) with hyphen_to_underscore.
  rewrite (plain_value_map_chars _ Hn), Hn, Ha, He, Hd, Hg, plain_value_year.
  reflexivity.
Qed.

Variables (args : Cli.Args) (year : nat).
Local Abbreviation repl := (replacements_of args year).
Local Abbreviation new := (new_name repl).

Hypothesis values_plain :
  forallb plain_value
    [Cli.name args; Cli.author args; Cli.email args; Cli.description args;
     Cli.github args] = true.

(** Guarded text comes out of the eight passes without any marker. *)
Lemma passes_clear (s : string) :
  guarded tokens s = true -> occurs marker (apply_replacements repl s) = false.
Proof.
  intros H. apply apply_replacements_clears.
  - reflexivity.
  - now apply plain_replacements.
  - exact H.
Qed.

Lemma new_name_clear (x : string) :
  guarded tokens x = true -> negb (occurs marker (new x)) = true.
Proof.
  intros H. apply negb_true_iff. unfold new_name.
  destruct (occurs marker x) eqn:E; [now apply passes_clear | exact E].
Qed.

End WholeRun.

Section NoTokenRemains.
Import Entries EntriesFacts TreeFacts.

Lemma map_new_name_id (repl : mapping) (p : path) :
  forallb (fun x => negb (occurs marker x)) p = true ->
  map (new_name repl) p = p.
Proof.
  induction p as [|x p IH]; [reflexivity|].
  cbn [forallb map]. intros H. apply andb_true_iff in H as [Hx Hp].
  apply negb_true_iff in Hx. unfold new_name at 1. rewrite Hx. now rewrite IH.
Qed.

Lemma forallb_impl (A : Type) (P Q : A -> bool) (l : list A) :
  (forall a, P a = true -> Q a = true) ->
  forallb P l = true -> forallb Q l = true.
Proof.
  intros HPQ. rewrite !forallb_forall. intros H a Ha. apply HPQ. now apply H.
Qed.

Lemma shape_dir (t : node) (es : entries) :
  shape t = shape (Dir es) -> exists es', t = Dir es'.
Proof. destruct t as [d|es']; [discriminate | now exists es']. Qed.

(** C1, as stated, fails: with an author value that holds the name token,
    the token is left in a processed file at the end of the run. *)
Lemma token_remains_counterexample :
  exists st,
    run_steps 1 Sample.cwd Sample.script_path
      (replacements_of Sample.args_author_name 2026) Sample.readme_author = Ok st
    /\ lookup (tree st) ["README.md"] = Some (File "by ${package_name}")
    /\ token_free "by ${package_name}" = false.
Proof.
  eexists. split; [vm_compute; reflexivity|]. split; reflexivity.
Qed.

(** Plain values do not save a text in which a marker begins no token. *)
Example token_assembled :
  apply_replacements
    (replacements_of
       {| Cli.name := "age_"; Cli.author := "A B"; Cli.email := "a@b.com";
          Cli.description := "desc"; Cli.github := "a" |} 2026)
    "${pack${package_name}name}"
  = "${package_name}".
Proof. reflexivity. Qed.

(** C1, amended: let the five supplied values be non-empty, without dollar
    and not beginning with an opening brace; let every marker in a name, and
    in the text of every file that step 1 selects, begin one of the eight
    tokens; let the names be renamable without collision; and let the tool's
    own file sit in the tree under a path without marker, or outside the
    working directory.  Then steps 1 to 3 end normally, no name of the
    resulting tree holds a token, and every selected text file is found
    under its new path with contents that hold no token. *)
Theorem no_token_remains (fuel : nat) (cwd script_path : path)
  (args : Cli.Args) (year : nat) (es : entries) (o : list event) :
  forallb plain_value
    [Cli.name args; Cli.author args; Cli.email args; Cli.description args;
     Cli.github args] = true ->
  rename_safe (replacements_of args year) (Dir es) = true ->
  height (Dir es) <= fuel ->
  all_names (guarded tokens) (Dir es) = true ->
  all_files
    (fun p data =>
       negb (eligible cwd script_path p)
       || match read_text data with
          | Some text => guarded tokens text
          | None => true
          end) [] (Dir es) = true ->
  script_in_place cwd script_path (Dir es) = true ->
  exists st,
    run_steps fuel cwd script_path (replacements_of args year)
      {| tree := Dir es; out := o |} = Ok st
    /\ (forall q n, lookup (tree st) q = Some n -> forallb token_free q = true)
    /\ (forall p data text,
           lookup (Dir es) p = Some (File data) ->
           eligible cwd script_path p = true ->
           read_text data = Some text ->
           exists data',
             lookup (tree st) (map (new_name (replacements_of args year)) p)
             = Some (File data')
             /\ token_free data' = true).
Proof.
  intros Hval Hsafe Hh Hnames Hfiles Hscript.
  set (repl := replacements_of args year) in *.
  set (P := fun x : string => negb (occurs marker x)).
  assert (HP : forall x, P x = true -> token_free x = true).
  { intros x Hx. apply no_marker_token_free. now apply negb_true_iff. }
  set (st0 := {| tree := Dir es; out := o |}).
  set (st1 := rewrite_contents cwd script_path repl st0).
  assert (Hshape : shape (tree st1) = shape (Dir es))
    by apply rewrite_contents_shape.
  destruct (shape_dir _ _ Hshape) as [es1 Et1].
  rewrite Et1 in Hshape.
  assert (Hsafe1 : rename_safe repl (Dir es1) = true).
  { rewrite <- rename_safe_shape, Hshape, rename_safe_shape. exact Hsafe. }
  assert (Hh1 : height (Dir es1) <= fuel).
  { rewrite <- height_shape, Hshape, height_shape. exact Hh. }
  set (t2 := rename_tree repl (Dir es1)).
  (* names of the renamed tree *)
  assert (A2 : all_names P t2 = true).
  { unfold t2. rewrite all_names_rename_tree.
    rewrite <- all_names_shape, Hshape, all_names_shape.
    apply all_names_weaken with (P := guarded tokens); [|exact Hnames].
    intros x Hx. unfold P. now apply new_name_clear. }
  (* files of the renamed tree *)
  assert (F2 : forall p data text,
             lookup (Dir es) p = Some (File data) ->
             eligible cwd script_path p = true ->
             read_text data = Some text ->
             lookup (Dir es1) p = Some (File (apply_replacements repl text))
             /\ lookup t2 (map (new_name repl) p)
                = Some (File (apply_replacements repl text))
             /\ token_free (apply_replacements repl text) = true).
  { intros p data text Hl He Hr.
    assert (H1 : lookup (Dir es1) p = Some (File (apply_replacements repl text))).
    { rewrite <- Et1. unfold st1.
      rewrite rewrite_contents_file with (data := data).
      - rewrite He. unfold rewritten. now rewrite Hr.
      - now apply rename_safe_well_formed with (repl := repl).
      - reflexivity.
      - exact Hl. }
    split; [exact H1|]. split.
    - unfold t2.
      now rewrite lookup_rename_tree with (n := File (apply_replacements repl text)).
    - apply no_marker_token_free. apply passes_clear; [exact Hval|].
      pose proof (all_files_lookup _ p [] (Dir es) data Hfiles Hl) as HQ.
      cbn [app] in HQ. rewrite He, Hr in HQ. exact HQ. }
  (* step 2 *)
  unfold run_steps. fold st0. fold st1. unfold rename_files_and_dirs.
  assert (Ep : print (Banner 2) st1
               = {| tree := Dir es1; out := out st1 ++ [Banner 2] |}).
  { unfold print. now rewrite Et1. }
  rewrite Ep.
  rewrite (walk_correct repl fuel [] (Dir es1) es1 (out st1 ++ [Banner 2])
             eq_refl Hsafe1 Hh1). cbn [bind update]. fold t2.
  (* step 3 *)
  unfold remove_script. cbn [tree].
  unfold script_in_place in Hscript.
  destruct (strip_prefix cwd script_path) as [rel|] eqn:Esp.
  - apply andb_true_iff in Hscript as [Hfile Hrel].
    pose proof (map_new_name_id repl rel Hrel) as Erel.
    rewrite <- is_file_shape, <- Hshape, is_file_shape in Hfile.
    unfold is_file in Hfile.
    destruct (lookup (Dir es1) rel) as [[sd|?]|] eqn:Hl1; try discriminate.
    assert (Hl2 : lookup t2 rel = Some (File sd)).
    { rewrite <- Erel. unfold t2.
      now rewrite lookup_rename_tree with (n := File sd). }
    unfold path_exists. rewrite Hl2.
    destruct (rev rel) as [|a rr] eqn:Erev.
    { apply (f_equal (@rev string)) in Erev. rewrite rev_involutive in Erev.
      subst rel. discriminate. }
    assert (Esplit : rel = rev rr ++ [a]).
    { rewrite <- (rev_involutive rel), Erev. reflexivity. }
    rewrite Esplit in Hl2. rewrite lookup_app in Hl2.
    destruct (lookup t2 (rev rr)) as [[?|er]|] eqn:Hroot; try discriminate.
    cbn [lookup] in Hl2.
    destruct (get a er) as [[sd'|?]|] eqn:Ha; try discriminate.
    unfold on_tree, print. cbn [tree out].
    rewrite (at_dir_update _ _ _ _ Hroot). unfold remove_entry. rewrite Ha.
    cbn [bind]. eexists. split; [reflexivity|]. cbn [tree]. split.
    + intros q n Hq. apply forallb_impl with (P := P); [exact HP|].
      refine (proj1 (all_names_lookup P q _ n _ Hq)).
      apply all_names_update; [exact A2|].
      destruct (all_names_lookup P (rev rr) t2 (Dir er) A2 Hroot) as [_ Her].
      cbn [all_names] in *. now apply forallb_remove.
    + intros p data text Hl He Hr.
      destruct (F2 p data text Hl He Hr) as (H1 & H2 & H3).
      eexists. split; [|exact H3].
      apply lookup_after_remove with (sd := sd'); auto.
      rewrite <- Esplit, <- Erel. intros Epq.
      apply map_new_injective with (t := Dir es1) in Epq;
        [|exact Hsafe1|congruence|congruence].
      subst p. apply strip_prefix_app in Esp.
      unfold eligible in He. rewrite <- Esp, path_eqb_refl in He.
      rewrite andb_false_r in He. discriminate.
  - eexists. split; [reflexivity|]. cbn [tree]. split.
    + intros q n Hq. apply forallb_impl with (P := P); [exact HP|].
      exact (proj1 (all_names_lookup P q t2 n A2 Hq)).
    + intros p data text Hl He Hr.
      destruct (F2 p data text Hl He Hr) as (H1 & H2 & H3).
      eexists. split; [exact H2 | exact H3].
Qed.

Lemma no_token_remains_witness :
  exists st,
    run_steps 3 Sample.cwd Sample.script_path (replacements_of Sample.args 2026)
      {| tree := Sample.project; out := [] |} = Ok st
    /\ (forall q n, lookup (tree st) q = Some n -> forallb token_free q = true)
    /\ (forall p data text,
           lookup Sample.project p = Some (File data) ->
           eligible Sample.cwd Sample.script_path p = true ->
           read_text data = Some text ->
           exists data',
             lookup (tree st) (map (new_name (replacements_of Sample.args 2026)) p)
             = Some (File data')
             /\ token_free data' = true).
Proof.
  apply (no_token_remains 3 Sample.cwd Sample.script_path Sample.args 2026
           [("README.md",
             File "Hello ${package_name} by ${author} <${email}>: ${description}");
            ("${import_name}",
             Dir [("__init__.py", File "# ${package_title} ${year}")]);
            ("logo.bin", File (String (ascii_of_nat 255) "${author}"));
            (".gitignore", File "*.md");
            (".git",
             Dir [("hooks", Dir [("${package_name}.sample", File "${author}")])]);
            (".template", Dir [("init.py", File "r'${package_name}'")])]
           [] eq_refl eq_refl ltac:(cbn; lia) eq_refl eq_refl eq_refl).
Defined.

(** The run on the sample project, from the command line on. *)
Example main_on_sample_project :
  option_map tree
    (match main Sample.env Sample.flags 2026 true 3 Sample.cwd Sample.script_path
             {| tree := Sample.project; out := [] |} with
     | Ok st => Some st
     | _ => None
     end)
  = Some
      (Dir [("README.md", File "Hello foo-bar by A B <a@b.com>: desc");
            ("foo_bar", Dir [("__init__.py", File "# foo_bar 2026")]);
            ("logo.bin", File (String (ascii_of_nat 255) "${author}"));
            (".gitignore", File "*.md");
            (".git", Dir [("hooks", Dir [("foo-bar.sample", File "${author}")])]);
            (".template", Dir [])]).
Proof. vm_compute. reflexivity. Qed.

End NoTokenRemains.

(** * Further properties *)

(** ** The ignore-pattern matcher and the command line *)

Lemma strip_prefix_of_app (base rel : path) :
  strip_prefix base (base ++ rel) = Some rel.
Proof.
  induction base as [|b base IH]; cbn; [reflexivity|].
  now rewrite String.eqb_refl.
Qed.

Lemma has_part_In (x : string) (p : path) : has_part x p = true <-> In x p.
Proof.
  unfold has_part. rewrite existsb_exists. split.
  - intros (y & Hy & E). apply String.eqb_eq in E. now subst.
  - intros H. exists x. split; [exact H | apply String.eqb_refl].
Qed.

(** X1: [is_ignored] answers [True] exactly for a path below the project
    root one of whose parts there is [.git] or [.github]; for every other
    path it raises [ValueError].  It never answers [False], and neither the
    patterns, nor [fnmatch], nor the working directory change its result. *)
Theorem is_ignored_ignores_patterns
  (fnmatch fnmatch' : string -> string -> bool) (PROJECT_ROOT cwd cwd' : path)
  (rel_is_dir rel_is_dir' : path -> bool) (resolved : path)
  (patterns patterns' : list string) :
  (is_ignored fnmatch PROJECT_ROOT cwd rel_is_dir resolved patterns = Ok true
   <-> exists rest, resolved = PROJECT_ROOT ++ rest
                    /\ (In ".git" rest \/ In ".github" rest))
  /\ (is_ignored fnmatch PROJECT_ROOT cwd rel_is_dir resolved patterns <> Ok true ->
      is_ignored fnmatch PROJECT_ROOT cwd rel_is_dir resolved patterns
      = Raise ValueError)
  /\ is_ignored fnmatch PROJECT_ROOT cwd rel_is_dir resolved patterns
     = is_ignored fnmatch' PROJECT_ROOT cwd' rel_is_dir' resolved patterns'.
Proof.
  unfold is_ignored, relative_to. cbn [absolute parts Bool.eqb].
  destruct (strip_prefix PROJECT_ROOT resolved) as [rest|] eqn:E; cbn [parts absolute].
  - apply strip_prefix_app in E.
    destruct (has_part ".git" rest || has_part ".github" rest) eqn:Hp.
    + split; [|split; [congruence | reflexivity]].
      split; [intros _ | reflexivity].
      exists rest. split; [exact E|].
      apply orb_true_iff in Hp. now rewrite !has_part_In in Hp.
    + split; [|split; reflexivity].
      split; [discriminate|].
      intros (rest' & E' & Hin). rewrite E in E'. apply app_inv_head in E'. subst rest'.
      rewrite <- !has_part_In in Hin. apply orb_true_iff in Hin. congruence.
  - split; [|split; reflexivity].
    split; [discriminate|].
    intros (rest & -> & _). now rewrite strip_prefix_of_app in E.
Qed.

Lemma has_char_app (c : ascii) (a b : string) :
  has_char c (a ++ b) = has_char c a || has_char c b.
Proof.
  induction a as [|x a IH]; [reflexivity|].
  cbn [append has_char]. now rewrite IH, orb_assoc.
Qed.

Lemma split_head_spec (sep : ascii) (s : string) :
  has_char sep s = true ->
  exists rest,
    s = (hd EmptyString (split sep s) ++ String sep rest)%string
    /\ has_char sep (hd EmptyString (split sep s)) = false.
Proof.
  induction s as [|c s IH]; [discriminate|].
  cbn [has_char split]. rewrite (Ascii.eqb_sym c sep).
  destruct (Ascii.eqb sep c) eqn:E.
  - intros _. apply Ascii.eqb_eq in E. subst c. exists s. now split.
  - cbn [orb]. intros H. destruct (IH H) as (rest & Es & Hh).
    destruct (split sep s) as [|h t] eqn:Esp.
    + cbn [hd] in *. exists rest. cbn [hd append has_char].
      split; [now rewrite Es at 1 | now rewrite E].
    + cbn [hd] in *. exists rest. cbn [append has_char].
      split; [now rewrite Es at 1 | now rewrite E, Hh].
Qed.

(** X2: without [--github], and with an at-sign in the resolved email, the
    handle holds no at-sign and the email is the handle, an at-sign, and
    the rest. *)
Theorem derived_handle_splits_email (env : Cli.environment) (a : Cli.argv)
  (args : Cli.Args) :
  Cli.flag_github a = None ->
  Cli.parse_args env a = Some args ->
  has_char "@" (Cli.email args) = true ->
  has_char "@" (Cli.github args) = false
  /\ exists rest,
       Cli.email args = (Cli.github args ++ String "@" rest)%string.
Proof.
  intros Hg Hp Hat. unfold Cli.parse_args in Hp.
  destruct (Cli.flag_name a) as [n|]; [|discriminate].
  rewrite Hg in Hp. injection Hp as <-. cbn [Cli.email Cli.github] in *.
  rewrite Hat. destruct (split_head_spec "@" _ Hat) as (rest & E & Hh).
  split; [exact Hh | now exists rest].
Qed.

Lemma derived_handle_splits_email_witness :
  has_char "@" (Cli.github Sample.args) = false
  /\ exists rest,
       Cli.email Sample.args = (Cli.github Sample.args ++ String "@" rest)%string.
Proof.
  apply (derived_handle_splits_email Sample.env Sample.flags Sample.args
           eq_refl eq_refl eq_refl).
Defined.

Lemma get_git_config_nonempty (answer : option string) (default : string) :
  default <> EmptyString -> Cli.get_git_config answer default <> EmptyString.
Proof.
  intros Hd. unfold Cli.get_git_config.
  destruct answer as [[|c s]|]; [exact Hd | discriminate | exact Hd].
Qed.

(** X3: an author or an email that is not given on the command line is
    never empty: an empty or failed answer of git gives way to the fixed
    default; and a description that is not given is the fixed default. *)
Theorem defaults_are_never_empty (env : Cli.environment) (a : Cli.argv)
  (args : Cli.Args) :
  Cli.parse_args env a = Some args ->
  (Cli.flag_author a = None -> Cli.author args <> EmptyString)
  /\ (Cli.flag_email a = None -> Cli.email args <> EmptyString)
  /\ (Cli.flag_author a = None -> Cli.git_user_name env = Some EmptyString ->
      Cli.author args = "Your Name")
  /\ (Cli.flag_description a = None -> Cli.description args = "A Python package").
Proof.
  intros Hp. unfold Cli.parse_args in Hp.
  destruct (Cli.flag_name a) as [n|]; [|discriminate].
  injection Hp as <-. cbn [Cli.author Cli.email Cli.description].
  repeat split.
  - intros ->. cbn [Cli.flag_or]. now apply get_git_config_nonempty.
  - intros ->. cbn [Cli.flag_or]. now apply get_git_config_nonempty.
  - intros -> ->. reflexivity.
  - intros ->. reflexivity.
Qed.

Lemma defaults_are_never_empty_witness :
  Cli.email
    {| Cli.name := "pkg"; Cli.author := "Your Name";
       Cli.email := "your.email@example.com";
       Cli.description := "A Python package"; Cli.github := "your.email" |}
  <> EmptyString.
Proof.
  apply (proj1 (proj2 (defaults_are_never_empty
                         {| Cli.git_user_name := None;
                            Cli.git_user_email := Some EmptyString;
                            Cli.os_user := "alice" |}
                         {| Cli.flag_name := Some "pkg"; Cli.flag_author := None;
                            Cli.flag_email := None; Cli.flag_description := None;
                            Cli.flag_github := None |}
                         {| Cli.name := "pkg"; Cli.author := "Your Name";
                            Cli.email := "your.email@example.com";
                            Cli.description := "A Python package";
                            Cli.github := "your.email" |}
                         eq_refl))).
  reflexivity.
Defined.

Lemma map_chars_length (f : ascii -> ascii) (s : string) :
  String.length (map_chars f s) = String.length s.
Proof. induction s as [|c s IH]; cbn; [reflexivity | now rewrite IH]. Qed.

(** X4: the import name holds no hyphen, is as long as the package name,
    and is the package name itself when that holds no hyphen. *)
Theorem import_name_is_import_safe (args : Cli.Args) (year : nat) :
  exists v,
    value_of "${import_name}" (replacements_of args year) = Some v
    /\ has_char "-" v = false
    /\ String.length v = String.length (Cli.name args)
    /\ (has_char "-" (Cli.name args) = false -> v = Cli.name args).
Proof.
  exists (replace (Cli.name args) "-" "_"). split; [reflexivity|].
  rewrite replace_char. split; [|split].
  - induction (Cli.name args) as [|c s IH]; [reflexivity|].
    cbn [map_chars has_char]. rewrite IH, orb_false_r.
    destruct (Ascii.eqb c "-") eqn:E; [reflexivity|].
    now rewrite Ascii.eqb_sym.
  - apply map_chars_length.
  - induction (Cli.name args) as [|c s IH]; [reflexivity|].
    cbn [map_chars has_char]. intros H. apply orb_false_iff in H as [Hc Hs].
    rewrite Ascii.eqb_sym, Hc. now rewrite IH.
Qed.

(** ** Decoding and encoding *)

Section Utf8Facts.
Import Utf8.

(** Ranges of continuation bytes. *)
Local Abbreviation in_tail pend :=
  (Forall (fun r : nat * nat => 128 <= fst r /\ snd r <= 191) pend).

Lemma length_of_append (a b : string) :
  String.length (a ++ b) = String.length a + String.length b.
Proof. induction a as [|c a IH]; cbn; [reflexivity | now rewrite IH]. Qed.

Lemma between_spec (lo hi : nat) (c : ascii) :
  between lo hi c = true <-> lo <= nat_of_ascii c <= hi.
Proof.
  unfold between. rewrite andb_true_iff, !Nat.leb_le. tauto.
Qed.

Lemma continuation_cases (c : ascii) (rest : list (nat * nat)) :
  continuation c = Some rest ->
  in_tail rest /\ (nat_of_ascii c <= 127 \/ 194 <= nat_of_ascii c <= 244)
  /\ (nat_of_ascii c <= 127 -> rest = []).
Proof.
  unfold continuation.
  repeat match goal with
         | |- context [between ?lo ?hi c] =>
             let E := fresh "E" in
             destruct (between lo hi c) eqn:E;
             [apply between_spec in E
             |apply not_true_iff_false in E; rewrite between_spec in E]
         end;
    intros H; try discriminate; injection H as <-;
    (split; [repeat (constructor; cbn [fst snd]); lia
            | split; [lia | intros; try reflexivity; lia]]).
Qed.

Lemma continuation_ascii (c : ascii) :
  nat_of_ascii c <= 127 -> continuation c = Some [].
Proof.
  intros H. unfold continuation.
  assert (E : between 0 127 c = true) by (apply between_spec; lia).
  now rewrite E.
Qed.

Lemma continuation_stray (c : ascii) :
  stray_byte c = true -> continuation c = None.
Proof.
  unfold stray_byte. rewrite !orb_true_iff, !Nat.eqb_eq, Nat.leb_le. intros H.
  destruct (continuation c) as [rest|] eqn:E; [|reflexivity].
  apply continuation_cases in E as (_ & E & _).
  pose proof (nat_ascii_bounded c). lia.
Qed.

Lemma valid_from_app (a b : string) : forall pend,
  valid_from pend a = true -> valid_from pend (a ++ b) = valid_from [] b.
Proof.
  induction a as [|c a IH]; intros pend H.
  - cbn in H. destruct pend; [reflexivity | discriminate].
  - cbn [append valid_from] in *. destruct pend as [|[lo hi] rest].
    + destruct (continuation c); [now apply IH | discriminate].
    + apply andb_true_iff in H as [Hb Hv]. rewrite Hb. now apply IH.
Qed.

(** Inside a character no key can begin. *)
Lemma no_match_in_tail (k : string) (c : ascii) (s : string) (lo hi : nat) :
  k <> EmptyString -> valid k = true ->
  128 <= lo -> hi <= 191 -> between lo hi c = true ->
  starts_with k (String c s) = false.
Proof.
  intros Hne Hk Hlo Hhi Hb. destruct k as [|kc k']; [congruence|].
  cbn [starts_with]. destruct (Ascii.eqb kc c) eqn:E; [|reflexivity].
  apply Ascii.eqb_eq in E. subst kc.
  unfold valid in Hk. cbn [valid_from] in Hk.
  destruct (continuation c) as [rest|] eqn:Ec; [|discriminate].
  apply continuation_cases in Ec as (_ & Ec & _).
  apply between_spec in Hb. lia.
Qed.

Variables (k v : string).
Hypothesis k_nonempty : k <> EmptyString.
Hypothesis k_valid : valid k = true.
Hypothesis v_valid : valid v = true.

Lemma replace_from_valid : forall n s pend,
  String.length s <= n -> in_tail pend ->
  valid_from pend s = true -> valid_from pend (replace_from k v 0 s) = true.
Proof.
  induction n as [|n IH]; intros s pend Hn Hp Hv.
  - destruct s; [exact Hv | cbn in Hn; lia].
  - destruct s as [|c s]; [exact Hv|].
    cbn [String.length] in Hn.
    destruct pend as [|[lo hi] rest].
    + destruct (starts_with k (String c s)) eqn:Hk.
      * destruct (starts_with_split _ _ Hk) as [tl E]. rewrite E in *.
        destruct k as [|kc k'] eqn:Ek; [congruence|].
        rewrite replace_from_hit. rewrite <- Ek in *.
        rewrite (valid_from_app v _ [] v_valid).
        rewrite (valid_from_app k tl [] k_valid) in Hv.
        apply IH; [|constructor|exact Hv].
        rewrite Ek in E. cbn [append] in E. injection E as _ E. subst s.
        rewrite length_of_append in Hn. lia.
      * rewrite replace_from_miss by exact Hk.
        cbn [valid_from] in *.
        destruct (continuation c) as [rest|] eqn:Ec; [|discriminate].
        apply continuation_cases in Ec as (Hr & _ & _).
        apply IH; [lia | exact Hr | exact Hv].
    + cbn [valid_from] in Hv. apply andb_true_iff in Hv as [Hb Hv].
      inversion Hp as [|? ? [Hlo Hhi] Hp']; subst. cbn [fst snd] in *.
      rewrite replace_from_miss
        by (apply no_match_in_tail with (lo := lo) (hi := hi); auto).
      cbn [valid_from]. rewrite Hb. cbn [andb].
      apply IH; [lia | exact Hp' | exact Hv].
Qed.

End Utf8Facts.

Section TextFacts.
Import Utf8.

Lemma replace_valid (s k v : string) :
  k <> EmptyString -> valid k = true -> valid v = true ->
  valid s = true -> valid (replace s k v) = true.
Proof.
  intros Hne Hk Hv Hs. destruct k as [|kc k'] eqn:Ek; [congruence|].
  unfold replace, valid. rewrite <- Ek in *.
  apply replace_from_valid with (n := String.length s); auto.
Qed.

Lemma apply_replacements_valid (m : mapping) (s : string) :
  encodable m = true -> valid s = true -> valid (apply_replacements m s) = true.
Proof.
  revert s. unfold apply_replacements, encodable.
  induction m as [|[k v] m IH]; intros s Hm Hs; [exact Hs|].
  cbn [forallb fst snd] in Hm. apply andb_true_iff in Hm as [Hkv Hm].
  apply andb_true_iff in Hkv as [Hk Hv]. apply andb_true_iff in Hk as [Hne Hk].
  cbn [fold_left fst snd]. apply IH; [exact Hm|].
  apply replace_valid; auto.
  intros ->. discriminate.
Qed.

Lemma CR_not_in_tail (c : ascii) (lo hi : nat) :
  128 <= lo -> between lo hi c = true -> Ascii.eqb c CR = false.
Proof.
  intros Hlo Hb. apply between_spec in Hb.
  destruct (Ascii.eqb c CR) eqn:E; [|reflexivity].
  apply Ascii.eqb_eq in E. subst c. cbn in Hb. lia.
Qed.

Lemma universal_newlines_valid : forall n s pend,
  String.length s <= n ->
  Forall (fun r : nat * nat => 128 <= fst r /\ snd r <= 191) pend ->
  valid_from pend s = true -> valid_from pend (universal_newlines s) = true.
Proof.
  induction n as [|n IH]; intros s pend Hn Hp Hv.
  - destruct s; [exact Hv | cbn in Hn; lia].
  - destruct s as [|c s]; [exact Hv|].
    cbn [String.length] in Hn.
    destruct pend as [|[lo hi] rest].
    + cbn [universal_newlines]. destruct (Ascii.eqb c CR) eqn:Ecr.
      * apply Ascii.eqb_eq in Ecr. subst c.
        change (valid_from [] (String CR s)) with (valid_from [] s) in Hv.
        change (valid_from [] (String LF ?x)) with (valid_from [] x).
        destruct s as [|c' s']; [reflexivity|].
        destruct (Ascii.eqb c' LF) eqn:Elf.
        -- apply Ascii.eqb_eq in Elf. subst c'.
           change (valid_from [] (String LF s')) with (valid_from [] s') in Hv.
           apply IH; [cbn in Hn; lia | constructor | exact Hv].
        -- apply IH; [lia | constructor | exact Hv].
      * cbn [valid_from] in *.
        destruct (continuation c) as [rest|] eqn:Ec; [|discriminate].
        apply continuation_cases in Ec as (Hr & _ & _).
        apply IH; [lia | exact Hr | exact Hv].
    + cbn [valid_from] in Hv. apply andb_true_iff in Hv as [Hb Hv].
      inversion Hp as [|? ? [Hlo Hhi] Hp']; subst. cbn [fst snd] in *.
      cbn [universal_newlines]. rewrite (CR_not_in_tail c lo hi Hlo Hb).
      cbn [valid_from]. rewrite Hb. cbn [andb].
      apply IH; [lia | exact Hp' | exact Hv].
Qed.

Lemma rewritten_valid (repl : mapping) (data : string) :
  encodable repl = true -> valid data = true -> valid (rewritten repl data) = true.
Proof.
  intros Hm Hd. unfold rewritten, read_text. rewrite Hd.
  apply apply_replacements_valid; [exact Hm|].
  apply universal_newlines_valid with (n := String.length data); auto.
Qed.

Lemma universal_newlines_no_CR : forall n s,
  String.length s <= n -> has_char CR (universal_newlines s) = false.
Proof.
  induction n as [|n IH]; intros s Hn.
  - destruct s; [reflexivity | cbn in Hn; lia].
  - destruct s as [|c s]; [reflexivity|].
    cbn [String.length] in Hn. cbn [universal_newlines].
    destruct (Ascii.eqb c CR) eqn:Ecr.
    + change (has_char CR (String LF ?x)) with (has_char CR x).
      destruct s as [|c' s']; [reflexivity|].
      destruct (Ascii.eqb c' LF); apply IH; cbn in Hn |- *; lia.
    + cbn [has_char]. rewrite Ascii.eqb_sym, Ecr. apply IH. lia.
Qed.

Lemma replace_from_keeps_out (c : ascii) (old new : string) :
  has_char c new = false ->
  forall s skip, has_char c s = false ->
                 has_char c (replace_from old new skip s) = false.
Proof.
  intros Hnew. induction s as [|x s IH]; intros skip Hs; [reflexivity|].
  cbn [has_char] in Hs. apply orb_false_iff in Hs as [Hx Hs].
  cbn [replace_from]. destruct skip as [|skip]; [|now apply IH].
  destruct (starts_with old (String x s)).
  - rewrite has_char_app, Hnew. now apply IH.
  - cbn [has_char]. rewrite Hx. now apply IH.
Qed.

Lemma replace_keeps_out (c : ascii) (s old new : string) :
  has_char c new = false -> has_char c s = false ->
  has_char c (replace s old new) = false.
Proof.
  intros Hnew Hs. unfold replace. destruct old as [|a old'].
  - induction s as [|x s IH]; [exact Hnew|].
    cbn [has_char] in Hs. apply orb_false_iff in Hs as [Hx Hs].
    cbn [intersperse]. destruct (continuation_byte x).
    + cbn [has_char]. rewrite Hx. now apply IH.
    + rewrite has_char_app, Hnew. cbn [has_char orb].
      rewrite Hx. now apply IH.
  - now apply replace_from_keeps_out.
Qed.

Lemma apply_replacements_keeps_out (c : ascii) (m : mapping) (s : string) :
  forallb (fun kv => negb (has_char c (snd kv))) m = true ->
  has_char c s = false -> has_char c (apply_replacements m s) = false.
Proof.
  revert s. unfold apply_replacements.
  induction m as [|[k v] m IH]; intros s Hm Hs; [exact Hs|].
  cbn [forallb snd] in Hm. apply andb_true_iff in Hm as [Hv Hm].
  cbn [fold_left fst snd]. apply IH; [exact Hm|].
  apply replace_keeps_out; [now apply negb_true_iff | exact Hs].
Qed.

Lemma is_ascii_valid (s : string) : is_ascii s = true -> valid s = true.
Proof.
  unfold valid. induction s as [|c s IH]; [reflexivity|].
  cbn [is_ascii valid_from]. intros H. apply andb_true_iff in H as [Hc Hs].
  apply Nat.ltb_lt in Hc. rewrite continuation_ascii by lia. now apply IH.
Qed.

Lemma stray_invalid (s : string) : forall pend,
  Forall (fun r : nat * nat => 128 <= fst r /\ snd r <= 191) pend ->
  any_byte stray_byte s = true -> valid_from pend s = false.
Proof.
  induction s as [|c s IH]; intros pend Hp H; [discriminate|].
  cbn [any_byte] in H. cbn [valid_from].
  destruct pend as [|[lo hi] rest].
  - destruct (continuation c) as [rest|] eqn:Ec; [|reflexivity].
    destruct (stray_byte c) eqn:Es.
    + rewrite (continuation_stray c Es) in Ec. discriminate.
    + apply continuation_cases in Ec as (Hr & _ & _). now apply IH.
  - inversion Hp as [|? ? [Hlo Hhi] Hp']; subst. cbn [fst snd] in *.
    destruct (stray_byte c) eqn:Es.
    + assert (Hb : between lo hi c = false).
      { apply not_true_iff_false. rewrite between_spec.
        unfold stray_byte in Es.
        rewrite !orb_true_iff, !Nat.eqb_eq, Nat.leb_le in Es. lia. }
      now rewrite Hb.
    + rewrite (IH rest Hp' H). apply andb_false_r.
Qed.

End TextFacts.

(** ** A second pass, for the mapping of [main] *)

Section SecondPass.

Lemma year_has_no_CR (year : nat) : has_char CR (str_of_nat year) = false.
Proof.
  unfold str_of_nat. generalize (Nat.to_uint year) as u.
  induction u; cbn [NilEmpty.string_of_uint has_char]; try reflexivity;
    rewrite IHu; reflexivity.
Qed.

Lemma values_without_CR (args : Cli.Args) (year : nat) :
  forallb (fun v => negb (has_char CR v))
    [Cli.name args; Cli.author args; Cli.email args; Cli.description args;
     Cli.github args] = true ->
  forallb (fun kv => negb (has_char CR (snd kv))) (replacements_of args year) = true.
Proof.
  cbn [forallb]. rewrite !andb_true_r. intros H.
  apply andb_true_iff in H as [Hn H]. apply andb_true_iff in H as [Ha H].
  apply andb_true_iff in H as [He H]. apply andb_true_iff in H as [Hd Hg].
  unfold replacements_of. cbn [forallb snd].
  assert (Hi : negb (has_char CR (replace (Cli.name args) "-" "_")) = true).
  { apply negb_true_iff. apply replace_keeps_out; [reflexivity|].
    now apply negb_true_iff. }
  now rewrite Hn, Hi, Ha, He, Hd, Hg, year_has_no_CR.
Qed.

Lemma second_pass_same (cwd p : path) (repl : mapping) (st : state)
  (data : string) :
  lookup (tree st) p = Some (File data) ->
  forallb (fun k => negb (occurs k (rewritten repl data))) (keys repl) = true ->
  has_char CR (rewritten repl data) = false ->
  tree (replace_in_file cwd p repl (replace_in_file cwd p repl st))
  = tree (replace_in_file cwd p repl st).
Proof.
  intros Hl Hk Hcr.
  pose proof (replace_in_file_content cwd p repl st data Hl) as H1.
  set (st1 := replace_in_file cwd p repl st) in *.
  unfold replace_in_file at 1. rewrite H1. unfold read_text.
  destruct (Utf8.valid (rewritten repl data)); [|reflexivity].
  cbn [tree]. rewrite universal_newlines_id by exact Hcr.
  rewrite apply_replacements_absent by exact Hk.
  rewrite (write_text_update _ _ _ _ H1).
  now apply TreeFacts.update_id.
Qed.

End SecondPass.

(** C5, amended: a second pass over a file leaves the tree as the first pass
    left it whenever the bytes the first pass left hold none of the keys and
    no carriage return.  With the mapping of [main] that is so when each of
    the five supplied values is not empty, holds neither a dollar nor a
    carriage return and does not begin with an opening brace, and every
    marker of the decoded text begins a token.  A file that is not UTF-8 is
    left as it was by both passes. *)
Theorem second_pass_unchanged (cwd p : path) (repl : mapping) (st : state)
  (data : string) :
  lookup (tree st) p = Some (File data) ->
  (forallb (fun k => negb (occurs k (rewritten repl data))) (keys repl) = true ->
   has_char CR (rewritten repl data) = false ->
   tree (replace_in_file cwd p repl (replace_in_file cwd p repl st))
   = tree (replace_in_file cwd p repl st))
  /\ (forall args year,
        repl = replacements_of args year ->
        forallb plain_value
          [Cli.name args; Cli.author args; Cli.email args; Cli.description args;
           Cli.github args] = true ->
        forallb (fun v => negb (has_char CR v))
          [Cli.name args; Cli.author args; Cli.email args; Cli.description args;
           Cli.github args] = true ->
        Utf8.valid data = true ->
        guarded tokens (universal_newlines data) = true ->
        tree (replace_in_file cwd p repl (replace_in_file cwd p repl st))
        = tree (replace_in_file cwd p repl st))
  /\ (Utf8.valid data = false ->
      tree (replace_in_file cwd p repl (replace_in_file cwd p repl st)) = tree st).
Proof.
  intros Hl. split; [now apply second_pass_same|]. split.
  - intros args year -> Hval Hcr Hv Hg.
    assert (Er : rewritten (replacements_of args year) data
                 = apply_replacements (replacements_of args year)
                     (universal_newlines data)).
    { unfold rewritten, read_text. now rewrite Hv. }
    apply second_pass_same with (data := data); [exact Hl | |]; rewrite Er.
    + change (keys (replacements_of args year)) with tokens.
      apply no_marker_token_free. now apply passes_clear.
    + apply apply_replacements_keeps_out; [now apply values_without_CR|].
      apply universal_newlines_no_CR with (n := String.length data). apply le_n.
  - intros Hv.
    assert (E : replace_in_file cwd p repl st = print (SkippingBinary (cwd ++ p)) st).
    { unfold replace_in_file, read_text. now rewrite Hl, Hv. }
    rewrite E. unfold replace_in_file, read_text, print. cbn [tree].
    now rewrite Hl, Hv.
Qed.

Lemma second_pass_unchanged_witness :
  tree (replace_in_file Sample.cwd ["README.md"] (replacements_of Sample.args 2026)
          (replace_in_file Sample.cwd ["README.md"]
             (replacements_of Sample.args 2026)
             {| tree := Sample.project; out := [] |}))
  = tree (replace_in_file Sample.cwd ["README.md"]
            (replacements_of Sample.args 2026)
            {| tree := Sample.project; out := [] |}).
Proof.
  apply (proj1 (proj2 (second_pass_unchanged Sample.cwd ["README.md"]
           (replacements_of Sample.args 2026)
           {| tree := Sample.project; out := [] |}
           "Hello ${package_name} by ${author} <${email}>: ${description}"
           eq_refl)) Sample.args 2026 eq_refl eq_refl eq_refl eq_refl eq_refl).
Defined.

(** ** One call of [replace_in_file] *)

(** X5: a decodable file in which no key occurs is written back with its
    line ends turned into line feeds and is otherwise unchanged, and the
    [Updated] line is printed all the same; when the file holds no carriage
    return, the tree is left exactly as it was. *)
Theorem file_without_keys_is_normalised (cwd p : path) (repl : mapping)
  (st : state) (data : string) :
  lookup (tree st) p = Some (File data) ->
  Utf8.valid data = true ->
  forallb (fun k => negb (occurs k (universal_newlines data))) (keys repl) = true ->
  replace_in_file cwd p repl st
  = {| tree := update (tree st) p (File (universal_newlines data));
       out := out st ++ [Updated (cwd ++ p)] |}
  /\ (has_char CR data = false -> tree (replace_in_file cwd p repl st) = tree st).
Proof.
  intros Hl Hv Hk.
  assert (E : replace_in_file cwd p repl st
              = {| tree := update (tree st) p (File (universal_newlines data));
                   out := out st ++ [Updated (cwd ++ p)] |}).
  { unfold replace_in_file, read_text. rewrite Hl, Hv.
    rewrite apply_replacements_absent by exact Hk.
    now rewrite (write_text_update _ _ _ _ Hl). }
  split; [exact E|].
  intros Hcr. rewrite E. cbn [tree]. rewrite universal_newlines_id by exact Hcr.
  now apply TreeFacts.update_id.
Qed.

Lemma file_without_keys_is_normalised_witness :
  replace_in_file [] ["a.txt"] Sample.x_mapping
    {| tree := Dir [("a.txt", File (String "x" (String CR (String LF "y"))))];
       out := [] |}
  = {| tree := Dir [("a.txt", File (String "x" (String LF "y")))];
       out := [Updated ["a.txt"]] |}.
Proof.
  apply (proj1 (file_without_keys_is_normalised [] ["a.txt"] Sample.x_mapping
                  {| tree := Dir [("a.txt",
                                   File (String "x" (String CR (String LF "y"))))];
                     out := [] |}
                  (String "x" (String CR (String LF "y")))
                  eq_refl eq_refl eq_refl)).
Defined.

(** X6: with keys that are not empty and keys and values that are encoded
    text, a decodable file is still decodable after the call. *)
Theorem rewritten_file_stays_decodable (cwd p : path) (repl : mapping)
  (st : state) (data : string) :
  lookup (tree st) p = Some (File data) ->
  Utf8.valid data = true ->
  encodable repl = true ->
  exists data',
    lookup (tree (replace_in_file cwd p repl st)) p = Some (File data')
    /\ Utf8.valid data' = true.
Proof.
  intros Hl Hv Hm. exists (rewritten repl data). split.
  - now apply replace_in_file_content.
  - now apply rewritten_valid.
Qed.

Lemma rewritten_file_stays_decodable_witness :
  exists data',
    lookup (tree (replace_in_file Sample.cwd ["README.md"]
                    (replacements_of Sample.args 2026)
                    {| tree := Sample.project; out := [] |})) ["README.md"]
    = Some (File data')
    /\ Utf8.valid data' = true.
Proof.
  apply (rewritten_file_stays_decodable Sample.cwd ["README.md"]
           (replacements_of Sample.args 2026)
           {| tree := Sample.project; out := [] |}
           "Hello ${package_name} by ${author} <${email}>: ${description}"
           eq_refl eq_refl eq_refl).
Defined.

(** X7: when moreover no value holds a carriage return, the file holds no
    carriage return after the call, and reading it again gives exactly the
    text that was written. *)
Theorem written_text_reads_back (cwd p : path) (repl : mapping) (st : state)
  (data text : string) :
  lookup (tree st) p = Some (File data) ->
  read_text data = Some text ->
  encodable repl = true ->
  forallb (fun kv => negb (has_char CR (snd kv))) repl = true ->
  lookup (tree (replace_in_file cwd p repl st)) p
  = Some (File (apply_replacements repl text))
  /\ has_char CR (apply_replacements repl text) = false
  /\ read_text (apply_replacements repl text) = Some (apply_replacements repl text).
Proof.
  intros Hl Hr Hm Hcr.
  assert (Hv : Utf8.valid data = true).
  { unfold read_text in Hr. destruct (Utf8.valid data); [reflexivity | discriminate]. }
  assert (Et : text = universal_newlines data).
  { unfold read_text in Hr. rewrite Hv in Hr. now injection Hr as <-. }
  assert (Ew : rewritten repl data = apply_replacements repl text).
  { unfold rewritten. now rewrite Hr. }
  assert (Hno : has_char CR (apply_replacements repl text) = false).
  { apply apply_replacements_keeps_out; [exact Hcr|]. subst text.
    now apply universal_newlines_no_CR with (n := String.length data). }
  split; [|split; [exact Hno|]].
  - rewrite <- Ew. now apply replace_in_file_content.
  - unfold read_text. rewrite <- Ew, (rewritten_valid repl data Hm Hv), Ew.
    now rewrite universal_newlines_id.
Qed.

Lemma written_text_reads_back_witness :
  read_text "Hello foo-bar by A B <a@b.com>: desc"
  = Some "Hello foo-bar by A B <a@b.com>: desc".
Proof.
  apply (proj2 (proj2 (written_text_reads_back Sample.cwd ["README.md"]
                         (replacements_of Sample.args 2026)
                         {| tree := Sample.project; out := [] |}
                         "Hello ${package_name} by ${author} <${email}>: ${description}"
                         "Hello ${package_name} by ${author} <${email}>: ${description}"
                         eq_refl eq_refl eq_refl eq_refl))).
Defined.

(** X8: with a mapping of encodable text, a file of ASCII bytes is always
    decoded and updated; under every mapping, a file that holds one of the
    bytes C0, C1, F5 to FF is skipped, with the tree left as it was. *)
Theorem decoding_edge_cases (cwd p : path) (repl : mapping) (st : state)
  (data : string) :
  lookup (tree st) p = Some (File data) ->
  (is_ascii data = true ->
   encodable repl = true ->
   replace_in_file cwd p repl st
   = {| tree := update (tree st) p
                  (File (apply_replacements repl (universal_newlines data)));
        out := out st ++ [Updated (cwd ++ p)] |})
  /\ (any_byte stray_byte data = true ->
      replace_in_file cwd p repl st = print (SkippingBinary (cwd ++ p)) st).
Proof.
  intros Hl. split.
  - intros H _. unfold replace_in_file, read_text. rewrite Hl.
    rewrite (is_ascii_valid data H). now rewrite (write_text_update _ _ _ _ Hl).
  - intros H. unfold replace_in_file, read_text. rewrite Hl.
    unfold Utf8.valid. now rewrite (stray_invalid data [] (Forall_nil _) H).
Qed.

Lemma decoding_edge_cases_witness :
  replace_in_file Sample.cwd ["logo.bin"] (replacements_of Sample.args 2026)
    {| tree := Sample.project; out := [] |}
  = print (SkippingBinary (Sample.cwd ++ ["logo.bin"]))
      {| tree := Sample.project; out := [] |}
  /\ out (replace_in_file Sample.cwd [".gitignore"] (replacements_of Sample.args 2026)
            {| tree := Sample.project; out := [] |})
     = [Updated (Sample.cwd ++ [".gitignore"])].
Proof.
  split.
  - apply (proj2 (decoding_edge_cases Sample.cwd ["logo.bin"]
                    (replacements_of Sample.args 2026)
                    {| tree := Sample.project; out := [] |}
                    (String (ascii_of_nat 255) "${author}") eq_refl)).
    reflexivity.
  - rewrite (proj1 (decoding_edge_cases Sample.cwd [".gitignore"]
                      (replacements_of Sample.args 2026)
                      {| tree := Sample.project; out := [] |}
                      "*.md" eq_refl) eq_refl eq_refl).
    reflexivity.
Defined.

(** ** Step 1 as a whole *)

Section StepOne.
Import Entries EntriesFacts TreeFacts.

Lemma rglob_shape (t : node) : rglob (shape t) = rglob t.
Proof.
  induction t as [data|es IH] using node_induction; [reflexivity|].
  cbn [shape rglob]. f_equal.
  - rewrite map_map. apply map_ext. now intros [x c].
  - induction IH as [|[x c] es E _ IHes]; [reflexivity|].
    cbn [map flat_map fst snd] in *. now rewrite E, IHes.
Qed.

Lemma path_exists_shape (t : node) (q : path) :
  path_exists (shape t) q = path_exists t q.
Proof.
  unfold path_exists. rewrite lookup_shape. now destruct (lookup t q).
Qed.

(** X9: step 1 neither creates, nor deletes, nor renames anything: the same
    paths exist before and after, each as a file or as a directory as
    before. *)
Theorem rewrite_contents_keeps_entries (cwd script_path : path) (repl : mapping)
  (st : state) :
  rglob (tree (rewrite_contents cwd script_path repl st)) = rglob (tree st)
  /\ forall q,
       path_exists (tree (rewrite_contents cwd script_path repl st)) q
       = path_exists (tree st) q
       /\ is_file (tree (rewrite_contents cwd script_path repl st)) q
          = is_file (tree st) q.
Proof.
  pose proof (rewrite_contents_shape cwd script_path repl st) as E.
  split.
  - now rewrite <- rglob_shape, E, rglob_shape.
  - intros q. split.
    + now rewrite <- path_exists_shape, E, path_exists_shape.
    + now rewrite <- is_file_shape, E, is_file_shape.
Qed.

Variables (cwd script_path : path) (repl : mapping).
Local Abbreviation step := (rewrite_one cwd script_path repl).




End StepOne.



(** ** Substituting twice *)

(** X11: with the five supplied values not empty, without dollar and not
    beginning with an opening brace, substituting a second time into a text
    all of whose markers began tokens changes nothing. *)
Theorem substitution_idempotent_on_guarded_text (args : Cli.Args) (year : nat)
  (text : string) :
  forallb plain_value
    [Cli.name args; Cli.author args; Cli.email args; Cli.description args;
     Cli.github args] = true ->
  guarded tokens text = true ->
  apply_replacements (replacements_of args year)
    (apply_replacements (replacements_of args year) text)
  = apply_replacements (replacements_of args year) text.
Proof.
  intros Hval Hg. apply apply_replacements_absent.
  pose proof (passes_clear args year Hval text Hg) as Hno.
  apply no_marker_token_free in Hno. exact Hno.
Qed.

Lemma substitution_idempotent_on_guarded_text_witness :
  apply_replacements (replacements_of Sample.args 2026)
    (apply_replacements (replacements_of Sample.args 2026)
       "Hello ${package_name} by ${author} <${email}>: ${description}")
  = apply_replacements (replacements_of Sample.args 2026)
      "Hello ${package_name} by ${author} <${email}>: ${description}".
Proof.
  apply (substitution_idempotent_on_guarded_text Sample.args 2026
           "Hello ${package_name} by ${author} <${email}>: ${description}"
           eq_refl eq_refl).
Defined.

(** ** Step 2 on names without marker, and twice *)

Section PlainNames.
Import Entries EntriesFacts TreeFacts.

Variable repl : mapping.
Local Abbreviation new := (new_name repl).
Local Abbreviation plain := (fun x : string => negb (occurs marker x)).

Lemma new_name_of_plain (x : string) : plain x = true -> new x = x.
Proof. intros H. apply negb_true_iff in H. unfold new_name. now rewrite H. Qed.

Lemma plain_entry (es : entries) (x : string) :
  all_names plain (Dir es) = true -> In x (names es) -> new x = x.
Proof.
  cbn [all_names]. rewrite forallb_forall. intros H Hx.
  apply in_map_iff in Hx as ([y c] & <- & Hin). cbn [fst].
  specialize (H _ Hin). cbn [fst snd] in H. apply andb_true_iff in H as [H _].
  now apply new_name_of_plain.
Qed.

Lemma plain_child (es : entries) (e : string * node) :
  all_names plain (Dir es) = true -> In e es -> all_names plain (snd e) = true.
Proof.
  cbn [all_names]. rewrite forallb_forall. intros H Hin.
  specialize (H _ Hin). now apply andb_true_iff in H as [_ H].
Qed.

Lemma map_new_plain (es : entries) :
  all_names plain (Dir es) = true -> map new (names es) = names es.
Proof.
  intros H. rewrite <- (map_id (names es)) at 2.
  apply map_ext_in. intros x Hx. now apply plain_entry with (es := es).
Qed.

Lemma rename_safe_plain (t : node) :
  well_formed t = true -> all_names plain t = true -> rename_safe repl t = true.
Proof.
  induction t as [data|es IH] using node_induction; [reflexivity|].
  intros Hwf Hp. cbn [well_formed] in Hwf. apply andb_true_iff in Hwf as [Hd Hk].
  cbn [rename_safe]. apply andb_true_iff. split.
  - unfold safe_names. rewrite (map_new_plain es Hp), Hd. cbn [andb].
    apply forallb_forall. intros x Hx.
    rewrite (plain_entry es x Hp Hx), String.eqb_refl. reflexivity.
  - rewrite forallb_forall in *. rewrite Forall_forall in IH.
    intros e He. apply IH; [exact He | now apply Hk | now apply plain_child with (es := es)].
Qed.

Lemma rename_tree_plain (t : node) :
  all_names plain t = true -> rename_tree repl t = t.
Proof.
  induction t as [data|es IH] using node_induction; [reflexivity|].
  intros Hp. cbn [rename_tree]. f_equal.
  rewrite <- (map_id es) at 2. apply map_ext_in. intros [x c] Hin.
  rewrite Forall_forall in IH.
  pose proof (IH (x, c) Hin (plain_child es (x, c) Hp Hin)) as E.
  cbn [snd] in E. rewrite E.
  rewrite (plain_entry es x Hp); [reflexivity|].
  apply in_map_iff. now exists (x, c).
Qed.

Lemma flat_map_nil (A B : Type) (f : A -> list B) (l : list A) :
  (forall a, In a l -> f a = []) -> flat_map f l = [].
Proof.
  induction l as [|a l IH]; intros H; [reflexivity|].
  cbn [flat_map]. rewrite (H a (or_introl eq_refl)). apply IH.
  intros b Hb. apply H. now right.
Qed.

Lemma rename_log_plain (t : node) :
  all_names plain t = true -> forall root, rename_log repl root t = [].
Proof.
  induction t as [data|es IH] using node_induction; [reflexivity|].
  intros Hp root. cbn [rename_log]. rewrite Forall_forall in IH.
  rewrite !flat_map_nil; [reflexivity | | |].
  - intros x Hx. apply names_filter_incl in Hx. unfold dir_event.
    now rewrite (plain_entry es x Hp Hx), String.eqb_refl.
  - intros x Hx. apply names_filter_incl in Hx. unfold file_event.
    now rewrite (plain_entry es x Hp Hx), String.eqb_refl.
  - intros [x c] Hin. apply (IH (x, c) Hin). now apply plain_child with (es := es) (e := (x, c)).
Qed.

(** Nothing to rename: nothing is done. *)
Lemma walk_plain (fuel : nat) (es : entries) (o : list event) :
  well_formed (Dir es) = true ->
  all_names plain (Dir es) = true ->
  height (Dir es) <= fuel ->
  rename_files_and_dirs fuel repl {| tree := Dir es; out := o |}
  = Ok {| tree := Dir es; out := o |}.
Proof.
  intros Hwf Hp Hh. unfold rename_files_and_dirs.
  rewrite (walk_correct repl fuel [] (Dir es) es o eq_refl
             (rename_safe_plain (Dir es) Hwf Hp) Hh).
  cbn [update]. rewrite (rename_tree_plain (Dir es) Hp).
  now rewrite (rename_log_plain (Dir es) Hp), app_nil_r.
Qed.

Lemma well_formed_rename_tree (t : node) :
  rename_safe repl t = true -> well_formed (rename_tree repl t) = true.
Proof.
  induction t as [data|es IH] using node_induction; [reflexivity|].
  cbn [rename_safe rename_tree well_formed]. intros H.
  apply andb_true_iff in H as [Hn Hk]. apply andb_true_iff. split.
  - unfold safe_names in Hn. apply andb_true_iff in Hn as [Hd _].
    unfold names in *. rewrite map_map.
    rewrite map_map in Hd. erewrite map_ext; [exact Hd|]. now intros [x c].
  - rewrite forallb_map. rewrite forallb_forall in *. rewrite Forall_forall in IH.
    intros [x c] Hin. cbn [snd]. apply (IH (x, c) Hin). now apply (Hk (x, c)).
Qed.

Lemma height_rename_tree (t : node) : height (rename_tree repl t) = height t.
Proof.
  induction t as [data|es IH] using node_induction; [reflexivity|].
  cbn [rename_tree height]. f_equal.
  induction IH as [|[x c] es E _ IHes]; cbn; [reflexivity|].
  cbn [snd] in E. now rewrite E, IHes.
Qed.

End PlainNames.

(** X12: on a tree in which every directory lists each name once and no
    name holds the marker, the rename stage changes nothing and prints
    nothing, whatever the mapping. *)
Theorem rename_stage_noop_without_marker (fuel : nat) (repl : mapping)
  (es : entries) (o : list event) :
  well_formed (Dir es) = true ->
  all_names (fun x => negb (occurs marker x)) (Dir es) = true ->
  height (Dir es) <= fuel ->
  rename_files_and_dirs fuel repl {| tree := Dir es; out := o |}
  = Ok {| tree := Dir es; out := o |}.
Proof.
  intros Hwf Hp Hh. unfold rename_files_and_dirs.
  pose proof (rename_safe_plain repl (Dir es) Hwf Hp) as Hs.
  rewrite (walk_correct repl fuel [] (Dir es) es o eq_refl Hs Hh).
  cbn [update]. rewrite (rename_tree_plain repl (Dir es) Hp).
  rewrite (rename_log_plain repl (Dir es) Hp).
  now rewrite app_nil_r.
Qed.

Lemma rename_stage_noop_without_marker_witness :
  rename_files_and_dirs 2 (replacements_of Sample.args 2026)
    {| tree := Dir [("README.md", File "${author}");
                    ("src", Dir [("a.py", File "x")])];
       out := [] |}
  = Ok {| tree := Dir [("README.md", File "${author}");
                       ("src", Dir [("a.py", File "x")])];
          out := [] |}.
Proof.
  apply (rename_stage_noop_without_marker 2 (replacements_of Sample.args 2026)
           [("README.md", File "${author}"); ("src", Dir [("a.py", File "x")])] []
           eq_refl eq_refl).
  cbn. lia.
Defined.

(** X13: the rename stage is idempotent on a tree that can be renamed
    without collision and whose new names hold no marker: run on its own
    result, it changes nothing and prints nothing more. *)
Theorem rename_stage_idempotent (fuel : nat) (repl : mapping) (es : entries)
  (o : list event) :
  rename_safe repl (Dir es) = true ->
  height (Dir es) <= fuel ->
  all_names (fun x => negb (occurs marker (new_name repl x))) (Dir es) = true ->
  exists st1,
    rename_files_and_dirs fuel repl {| tree := Dir es; out := o |} = Ok st1
    /\ rename_files_and_dirs fuel repl st1 = Ok st1.
Proof.
  intros Hs Hh Hp. eexists. split.
  - unfold rename_files_and_dirs.
    exact (walk_correct repl fuel [] (Dir es) es o eq_refl Hs Hh).
  - cbn [update].
    pose proof (well_formed_rename_tree repl (Dir es) Hs) as Hwf.
    pose proof (height_rename_tree repl (Dir es)) as Hh'.
    assert (Hp' : all_names (fun x => negb (occurs marker x))
                    (rename_tree repl (Dir es)) = true)
      by now rewrite all_names_rename_tree.
    cbn [rename_tree] in *.
    apply walk_plain; [exact Hwf | exact Hp' | lia].
Qed.

Lemma rename_stage_idempotent_witness :
  exists st1,
    rename_files_and_dirs 3 Sample.x_mapping {| tree := Sample.nested; out := [] |}
    = Ok st1
    /\ rename_files_and_dirs 3 Sample.x_mapping st1 = Ok st1.
Proof.
  apply (rename_stage_idempotent 3 Sample.x_mapping
           [("outer-${x}",
             Dir [("inner-${x}", Dir [("file-${x}", File "text")])])] []
           eq_refl ltac:(cbn; lia) eq_refl).
Defined.

(** ** A new name that is empty *)

(** X14: when the substituted name of an existing entry is empty or a
    single dot, [os.path.join] gives the directory itself: for a file
    [shutil.move] raises [shutil.Error], which ends the run; for a
    directory the destination exists and the entry is passed over. *)
Theorem empty_new_name_aborts (repl : mapping) (root : path) (x : string)
  (st : state) (es : entries) (n : node) :
  lookup (tree st) root = Some (Dir es) ->
  Entries.get x es = Some n ->
  occurs marker x = true ->
  apply_replacements repl x = EmptyString \/ apply_replacements repl x = "." ->
  rename_file repl root x st = Raise ShutilError
  /\ rename_dir repl root x st
     = Ok (print (RenamingDirectory root x (apply_replacements repl x)) st).
Proof.
  intros Hl Hx Hm Hnew.
  assert (Hc : classify (apply_replacements repl x) = Here)
    by (destruct Hnew as [-> | ->]; reflexivity).
  assert (Hne : String.eqb x (apply_replacements repl x) = false).
  { apply String.eqb_neq. intros E. rewrite <- E in Hnew.
    destruct Hnew as [-> | ->]; discriminate. }
  split.
  - unfold rename_file. rewrite Hm, Hne, Hc.
    unfold on_tree, print. cbn [tree out].
    rewrite (TreeFacts.makedirs_present _ _ _ Hl). cbn [bind tree out].
    unfold shutil_move. rewrite (TreeFacts.at_dir_update _ _ _ _ Hl).
    unfold move_entry. now rewrite Hx.
  - unfold rename_dir. rewrite Hm, Hne, Hc.
    cbn [target_exists bind print tree]. unfold path_exists. now rewrite Hl.
Qed.

Lemma empty_new_name_aborts_witness :
  rename_file [("${description}", EmptyString)] [] "${description}"
    {| tree := Dir [("${description}", File "notes")]; out := [] |}
  = Raise ShutilError
  /\ rename_files_and_dirs 1 [("${description}", EmptyString)]
       {| tree := Dir [("${description}", File "notes")]; out := [] |}
     = Raise ShutilError.
Proof.
  split; [|reflexivity].
  apply (proj1 (empty_new_name_aborts [("${description}", EmptyString)] []
                  "${description}"
                  {| tree := Dir [("${description}", File "notes")]; out := [] |}
                  [("${description}", File "notes")] (File "notes")
                  eq_refl eq_refl eq_refl (or_introl eq_refl))).
Defined.

(** ** Step 3 and the end of the run *)

Section StepThree.
Import Entries EntriesFacts TreeFacts.

Lemma split_last (rel : path) :
  rel <> [] -> exists root a, rev rel = a :: rev root /\ rel = root ++ [a].
Proof.
  intros Hne. destruct (rev rel) as [|a rr] eqn:E.
  - apply (f_equal (@rev string)) in E. rewrite rev_involutive in E. contradiction.
  - exists (rev rr), a. rewrite rev_involutive. split; [reflexivity|].
    rewrite <- (rev_involutive rel), E. reflexivity.
Qed.

Lemma lookup_last (t : node) (root : path) (a : string) (n : node) :
  lookup t (root ++ [a]) = Some n ->
  exists er, lookup t root = Some (Dir er) /\ get a er = Some n.
Proof.
  rewrite lookup_app. destruct (lookup t root) as [[d|er]|]; try discriminate.
  cbn [lookup]. destruct (get a er) as [c|] eqn:E; [|discriminate].
  intros H. injection H as ->. now exists er.
Qed.

(** What step 3 does when the tool's own file is there. *)
Lemma remove_script_file (cwd script_path rel : path) (st : state) (data : string) :
  strip_prefix cwd script_path = Some rel ->
  rel <> [] ->
  lookup (tree st) rel = Some (File data) ->
  exists root a er,
    rel = root ++ [a]
    /\ lookup (tree st) root = Some (Dir er)
    /\ get a er = Some (File data)
    /\ remove_script cwd script_path st
       = Ok {| tree := update (tree st) root (Dir (remove a er));
               out := out st ++ [Banner 3] |}.
Proof.
  intros Hsp Hne Hl.
  destruct (split_last rel Hne) as (root & a & Erev & Erel).
  pose proof Hl as Hl'. rewrite Erel in Hl'.
  destruct (lookup_last _ _ _ _ Hl') as (er & Hroot & Ha).
  exists root, a, er. repeat split; auto.
  unfold remove_script. rewrite Hsp. unfold path_exists. rewrite Hl, Erev.
  rewrite rev_involutive. unfold on_tree, print. cbn [tree out].
  rewrite (at_dir_update _ _ _ _ Hroot). unfold remove_entry. now rewrite Ha.
Qed.

(** X15: step 3 removes the tool's own file and nothing else, and prints
    its banner; when no such file exists it does nothing; when the path is
    a directory, [os.remove] raises. *)
Theorem remove_script_removes_only_script (cwd script_path rel : path)
  (st : state) :
  strip_prefix cwd script_path = Some rel ->
  is_dir (tree st) = true ->
  (forall data,
      lookup (tree st) rel = Some (File data) ->
      exists st',
        remove_script cwd script_path st = Ok st'
        /\ out st' = out st ++ [Banner 3]
        /\ lookup (tree st') rel = None
        /\ forall q d,
             lookup (tree st) q = Some (File d) -> q <> rel ->
             lookup (tree st') q = Some (File d))
  /\ (lookup (tree st) rel = None -> remove_script cwd script_path st = Ok st)
  /\ (forall es,
         lookup (tree st) rel = Some (Dir es) ->
         remove_script cwd script_path st = Raise IsADirectoryError).
Proof.
  intros Hsp Hd. split; [|split].
  - intros data Hl.
    assert (Hne : rel <> []).
    { intros ->. cbn in Hl. injection Hl as E. rewrite E in Hd. discriminate. }
    destruct (remove_script_file cwd script_path rel st data Hsp Hne Hl)
      as (root & a & er & Erel & Hroot & Ha & E).
    eexists. split; [exact E|]. cbn [tree out]. split; [reflexivity|]. split.
    + rewrite Erel, (lookup_under_update root [a] _ _ _ Hroot). cbn [lookup].
      now rewrite get_remove_same.
    + intros q d Hq Hne'. apply lookup_after_remove with (sd := data); auto.
      now rewrite <- Erel.
  - intros Hl. unfold remove_script, path_exists. now rewrite Hsp, Hl.
  - intros es Hl. unfold remove_script, path_exists. rewrite Hsp, Hl.
    destruct (rev rel) as [|a rr] eqn:Erev; [reflexivity|].
    assert (Erel : rel = rev rr ++ [a]).
    { rewrite <- (rev_involutive rel), Erev. reflexivity. }
    rewrite Erel in Hl. destruct (lookup_last _ _ _ _ Hl) as (er & Hroot & Ha).
    unfold on_tree, print. cbn [tree out].
    rewrite (at_dir_update _ _ _ _ Hroot). unfold remove_entry. now rewrite Ha.
Qed.

Lemma remove_script_removes_only_script_witness :
  exists st',
    remove_script Sample.cwd Sample.script_path
      {| tree := Sample.project; out := [] |} = Ok st'
    /\ out st' = [] ++ [Banner 3]
    /\ lookup (tree st') [".template"; "init.py"] = None
    /\ forall q d,
         lookup Sample.project q = Some (File d) -> q <> [".template"; "init.py"] ->
         lookup (tree st') q = Some (File d).
Proof.
  apply (proj1 (remove_script_removes_only_script Sample.cwd Sample.script_path
                  [".template"; "init.py"]
                  {| tree := Sample.project; out := [] |} eq_refl eq_refl)
           "r'${package_name}'").
  reflexivity.
Defined.

(** The outcome of steps 1 to 3 on a tree that can be renamed without
    collision. *)
Lemma run_steps_outcome (fuel : nat) (cwd script_path : path) (repl : mapping)
  (es : entries) (o : list event) :
  rename_safe repl (Dir es) = true ->
  height (Dir es) <= fuel ->
  script_in_place cwd script_path (Dir es) = true ->
  exists st,
    run_steps fuel cwd script_path repl {| tree := Dir es; out := o |} = Ok st
    /\ (forall rel, strip_prefix cwd script_path = Some rel ->
                    lookup (tree st) rel = None)
    /\ (forall p d,
           lookup (tree (rewrite_contents cwd script_path repl
                           {| tree := Dir es; out := o |})) p = Some (File d) ->
           cwd ++ p <> script_path ->
           lookup (tree st) (map (new_name repl) p) = Some (File d)).
Proof.
  intros Hsafe Hh Hscript.
  set (st0 := {| tree := Dir es; out := o |}).
  set (st1 := rewrite_contents cwd script_path repl st0).
  assert (Hshape : shape (tree st1) = shape (Dir es))
    by apply rewrite_contents_shape.
  destruct (shape_dir _ _ Hshape) as [es1 Et1].
  rewrite Et1 in *.
  assert (Hsafe1 : rename_safe repl (Dir es1) = true).
  { rewrite <- rename_safe_shape, Hshape, rename_safe_shape. exact Hsafe. }
  assert (Hh1 : height (Dir es1) <= fuel).
  { rewrite <- height_shape, Hshape, height_shape. exact Hh. }
  set (t2 := rename_tree repl (Dir es1)).
  assert (F2 : forall p d, lookup (Dir es1) p = Some (File d) ->
                           lookup t2 (map (new_name repl) p) = Some (File d)).
  { intros p d Hl. unfold t2.
    now rewrite lookup_rename_tree with (n := File d). }
  unfold run_steps. fold st0. fold st1. unfold rename_files_and_dirs.
  assert (Ep : print (Banner 2) st1
               = {| tree := Dir es1; out := out st1 ++ [Banner 2] |}).
  { unfold print. now rewrite Et1. }
  rewrite Ep.
  rewrite (walk_correct repl fuel [] (Dir es1) es1 (out st1 ++ [Banner 2])
             eq_refl Hsafe1 Hh1).
  cbn [bind update]. fold t2.
  unfold script_in_place in Hscript.
  destruct (strip_prefix cwd script_path) as [rel|] eqn:Esp.
  - apply andb_true_iff in Hscript as [Hfile Hrel].
    pose proof (map_new_name_id repl rel Hrel) as Erel.
    rewrite <- is_file_shape, <- Hshape, is_file_shape in Hfile.
    unfold is_file in Hfile.
    destruct (lookup (Dir es1) rel) as [[sd|?]|] eqn:Hl1; try discriminate.
    assert (Hl2 : lookup t2 rel = Some (File sd)).
    { rewrite <- Erel. now apply F2. }
    assert (Hne : rel <> []) by (intros ->; discriminate).
    destruct (remove_script_file cwd script_path rel
                {| tree := t2; out := (out st1 ++ [Banner 2])
                                      ++ rename_log repl [] (Dir es1) |}
                sd Esp Hne Hl2)
      as (root & a & er & Esplit & Hroot & Ha & E).
    eexists. split; [exact E|]. cbn [tree] in *. split.
    + intros rel' [= <-].
      rewrite Esplit, (lookup_under_update root [a] _ _ _ Hroot). cbn [lookup].
      now rewrite get_remove_same.
    + intros p d Hl Hnot.
      apply lookup_after_remove with (sd := sd); auto.
      rewrite <- Esplit, <- Erel. intros Epq.
      apply map_new_injective with (t := Dir es1) in Epq;
        [|exact Hsafe1|congruence|congruence].
      subst p. apply strip_prefix_app in Esp. congruence.
  - unfold remove_script. rewrite Esp.
    eexists. split; [reflexivity|]. cbn [tree]. split; [discriminate|].
    intros p d Hl _. now apply F2.
Qed.

(** X16: a file that step 1 does not select, or whose bytes do not decode,
    comes out of steps 1 to 3 with the bytes it had, under its new path
    (the tool's own file apart, which is removed). *)
Theorem unselected_file_keeps_bytes (fuel : nat) (cwd script_path : path)
  (repl : mapping) (es : entries) (o : list event) (p : path) (data : string) :
  rename_safe repl (Dir es) = true ->
  height (Dir es) <= fuel ->
  script_in_place cwd script_path (Dir es) = true ->
  lookup (Dir es) p = Some (File data) ->
  eligible cwd script_path p = false \/ read_text data = None ->
  cwd ++ p <> script_path ->
  exists st,
    run_steps fuel cwd script_path repl {| tree := Dir es; out := o |} = Ok st
    /\ lookup (tree st) (map (new_name repl) p) = Some (File data).
Proof.
  intros Hsafe Hh Hscript Hl Hun Hnot.
  destruct (run_steps_outcome fuel cwd script_path repl es o Hsafe Hh Hscript)
    as (st & E & _ & Hkeep).
  exists st. split; [exact E|]. apply Hkeep; [|exact Hnot].
  rewrite rewrite_contents_file with (data := data).
  - destruct Hun as [-> | Hr]; [reflexivity|].
    unfold rewritten. rewrite Hr. now destruct (eligible cwd script_path p).
  - now apply rename_safe_well_formed with (repl := repl).
  - reflexivity.
  - exact Hl.
Qed.

Lemma unselected_file_keeps_bytes_witness :
  exists st,
    run_steps 3 Sample.cwd Sample.script_path (replacements_of Sample.args 2026)
      {| tree := Sample.project; out := [] |} = Ok st
    /\ lookup (tree st) [".git"; "hooks"; "foo-bar.sample"]
       = Some (File "${author}").
Proof.
  apply (unselected_file_keeps_bytes 3 Sample.cwd Sample.script_path
           (replacements_of Sample.args 2026)
           [("README.md",
             File "Hello ${package_name} by ${author} <${email}>: ${description}");
            ("${import_name}",
             Dir [("__init__.py", File "# ${package_title} ${year}")]);
            ("logo.bin", File (String (ascii_of_nat 255) "${author}"));
            (".gitignore", File "*.md");
            (".git",
             Dir [("hooks", Dir [("${package_name}.sample", File "${author}")])]);
            (".template", Dir [("init.py", File "r'${package_name}'")])]
           [] [".git"; "hooks"; "${package_name}.sample"] "${author}"
           eq_refl ltac:(cbn; lia) eq_refl eq_refl (or_introl eq_refl)
           ltac:(discriminate)).
Defined.

(** X17: on a tree that can be renamed without collision, with the tool's
    own file in place, steps 1 to 3 end normally and the tool's own file
    no longer exists. *)
Theorem script_is_gone_after_run (fuel : nat) (cwd script_path rel : path)
  (repl : mapping) (es : entries) (o : list event) :
  rename_safe repl (Dir es) = true ->
  height (Dir es) <= fuel ->
  script_in_place cwd script_path (Dir es) = true ->
  strip_prefix cwd script_path = Some rel ->
  exists st,
    run_steps fuel cwd script_path repl {| tree := Dir es; out := o |} = Ok st
    /\ path_exists (tree st) rel = false.
Proof.
  intros Hsafe Hh Hscript Hsp.
  destruct (run_steps_outcome fuel cwd script_path repl es o Hsafe Hh Hscript)
    as (st & E & Hgone & _).
  exists st. split; [exact E|]. unfold path_exists. now rewrite (Hgone rel Hsp).
Qed.

Lemma script_is_gone_after_run_witness :
  exists st,
    run_steps 3 Sample.cwd Sample.script_path (replacements_of Sample.args 2026)
      {| tree := Sample.project; out := [] |} = Ok st
    /\ path_exists (tree st) [".template"; "init.py"] = false.
Proof.
  apply (script_is_gone_after_run 3 Sample.cwd Sample.script_path
           [".template"; "init.py"] (replacements_of Sample.args 2026)
           [("README.md",
             File "Hello ${package_name} by ${author} <${email}>: ${description}");
            ("${import_name}",
             Dir [("__init__.py", File "# ${package_title} ${year}")]);
            ("logo.bin", File (String (ascii_of_nat 255) "${author}"));
            (".gitignore", File "*.md");
            (".git",
             Dir [("hooks", Dir [("${package_name}.sample", File "${author}")])]);
            (".template", Dir [("init.py", File "r'${package_name}'")])]
           [] eq_refl ltac:(cbn; lia) eq_refl eq_refl).
Defined.

(** X18: with a mapping of encodable text, on a tree that can be renamed
    without collision and with the tool's own file in place, every text file
    that step 1 selects is found after steps 1 to 3 under its new path,
    holding the text that was read with every substitution applied. *)
Theorem selected_file_is_rewritten_and_renamed (fuel : nat)
  (cwd script_path : path) (repl : mapping) (es : entries) (o : list event)
  (p : path) (data text : string) :
  encodable repl = true ->
  rename_safe repl (Dir es) = true ->
  height (Dir es) <= fuel ->
  script_in_place cwd script_path (Dir es) = true ->
  lookup (Dir es) p = Some (File data) ->
  eligible cwd script_path p = true ->
  read_text data = Some text ->
  exists st,
    run_steps fuel cwd script_path repl {| tree := Dir es; out := o |} = Ok st
    /\ lookup (tree st) (map (new_name repl) p)
       = Some (File (apply_replacements repl text)).
Proof.
  intros _ Hsafe Hh Hscript Hl He Hr.
  destruct (run_steps_outcome fuel cwd script_path repl es o Hsafe Hh Hscript)
    as (st & E & _ & Hkeep).
  exists st. split; [exact E|]. apply Hkeep.
  - rewrite rewrite_contents_file with (data := data).
    + rewrite He. unfold rewritten. now rewrite Hr.
    + now apply rename_safe_well_formed with (repl := repl).
    + reflexivity.
    + exact Hl.
  - intros Eq. unfold eligible in He. apply path_eqb_eq in Eq. rewrite Eq in He.
    rewrite andb_false_r in He. discriminate.
Qed.

Lemma selected_file_is_rewritten_and_renamed_witness :
  exists st,
    run_steps 3 Sample.cwd Sample.script_path (replacements_of Sample.args 2026)
      {| tree := Sample.project; out := [] |} = Ok st
    /\ lookup (tree st) ["foo_bar"; "__init__.py"]
       = Some (File "# foo_bar 2026").
Proof.
  apply (selected_file_is_rewritten_and_renamed 3 Sample.cwd Sample.script_path
           (replacements_of Sample.args 2026)
           [("README.md",
             File "Hello ${package_name} by ${author} <${email}>: ${description}");
            ("${import_name}",
             Dir [("__init__.py", File "# ${package_title} ${year}")]);
            ("logo.bin", File (String (ascii_of_nat 255) "${author}"));
            (".gitignore", File "*.md");
            (".git",
             Dir [("hooks", Dir [("${package_name}.sample", File "${author}")])]);
            (".template", Dir [("init.py", File "r'${package_name}'")])]
           [] ["${import_name}"; "__init__.py"] "# ${package_title} ${year}"
           "# ${package_title} ${year}"
           eq_refl eq_refl ltac:(cbn; lia) eq_refl eq_refl eq_refl eq_refl).
Defined.

End StepThree.
